(** * MikroTik Security Monitor: a shallow embedding of [main.py]

    The development follows the pipeline of [main()]:
    fetch -> classify -> diff against the ledger -> persist -> report ->
    group by IP -> flag -> alert.

    Modelling conventions.
    - Python [str] is [string]: a character is a code point below 256,
      the ASCII and Latin-1 range; [[0-9]] is the ten ASCII digits and the
      word class of the regex is Python's, letters and numbers of that
      range and the underscore.  [str.lower] is modelled on the ASCII
      letters, which is all a match of the ASCII keywords reads.
    - A log entry is a dict whose keys may be absent: [dict.get] is an
      [option].
    - A [pandas.DataFrame] is the list of its rows; [None], [NaN] and [NaT]
      cells are [None].
    - [pandas.to_datetime] is an interface ([DatetimeParser]); a timestamp is
      the integer number of nanoseconds it holds.
    - The file system is a map from paths to contents; the run is the list of
      its I/O actions in program order. *)

From Stdlib Require Import String Ascii List ZArith Bool Arith Lia.
From Stdlib Require Import Permutation.
Import ListNotations.
Open Scope string_scope.
Open Scope list_scope.

(** ** Python strings *)

Module PyStr.

Definition code (c : ascii) : nat := nat_of_ascii c.

Definition between (lo hi : nat) (c : ascii) : bool :=
  (lo <=? code c)%nat && (code c <=? hi)%nat.

Definition is_upper (c : ascii) : bool := between 65 90 c.   (* A-Z *)
Definition is_lower (c : ascii) : bool := between 97 122 c.  (* a-z *)
Definition is_digit (c : ascii) : bool := between 48 57 c.   (* 0-9 *)

(** The code points from 128 to 255 for which [str.isalnum()] holds:
    the letters (all of 192-255 but the signs 215 and 247, and 170, 181,
    186) and the numbers (178, 179, 185, 188-190). *)
Definition is_latin1_alnum (c : ascii) : bool :=
  (code c =? 170)%nat || (code c =? 181)%nat || (code c =? 186)%nat ||
  between 178 179 c || (code c =? 185)%nat || between 188 190 c ||
  between 192 214 c || between 216 246 c || between 248 255 c.

(** [\w] of a [str] pattern: alphanumeric or underscore *)
Definition is_word (c : ascii) : bool :=
  is_upper c || is_lower c || is_digit c || (code c =? 95)%nat ||
  is_latin1_alnum c.

(** Lower-casing of the ASCII letters; the other characters are left as
    they are, and no lower-casing turns them into ASCII ones. *)
Definition lower_char (c : ascii) : ascii :=
  if is_upper c then ascii_of_nat (code c + 32) else c.

(** [s.lower()] *)
Fixpoint lower (s : string) : string :=
  match s with
  | EmptyString => EmptyString
  | String c s' => String (lower_char c) (lower s')
  end.

(** [s.startswith(k)] *)
Fixpoint startswith (k s : string) : bool :=
  match k with
  | EmptyString => true
  | String a k' =>
      match s with
      | EmptyString => false
      | String b s' => Ascii.eqb a b && startswith k' s'
      end
  end.

(** [k in s] *)
Fixpoint contains (k s : string) : bool :=
  startswith k s ||
  match s with
  | EmptyString => false
  | String _ s' => contains k s'
  end.

(** [f"{x}"] for a value that is a string or [None] *)
Definition format (x : option string) : string :=
  match x with
  | Some s => s
  | None => "None"
  end.

End PyStr.

(** ** Configuration *)

Definition CONFIG_FILE : string := "mikrotik_config.json".
Definition LOG_CSV : string := "failed_logins_master.csv".
Definition FAILURE_KEYWORDS : list string :=
  ["login failure"; "failed"; "denied"; "invalid"].
Definition BRUTE_FORCE_THRESHOLD : nat := 2.
Definition BRUTE_FORCE_WINDOW : Z := 5.

(** ** Log entries and failure records *)

(** One element of [logs.get()]: a dict with string values. *)
Record LogEntry := mkLogEntry {
  entry_time : option string;
  entry_message : option string;
  entry_topics : option string
}.

(** One dict appended to [failed_logins]; the columns of the ledger. *)
Record FailureRecord := mkFailureRecord {
  time : option string;
  message : option string;
  topics : option string;
  id : string
}.

(** [entry.get("message", "").lower()] *)
Definition lowered_message (entry : LogEntry) : string :=
  PyStr.lower (match entry_message entry with Some m => m | None => "" end).

(** [any(keyword in message for keyword in FAILURE_KEYWORDS)] *)
Definition is_failure (entry : LogEntry) : bool :=
  existsb (fun keyword => PyStr.contains keyword (lowered_message entry))
          FAILURE_KEYWORDS.

Definition record_of (entry : LogEntry) : FailureRecord :=
  {| time := entry_time entry;
     message := entry_message entry;
     topics := entry_topics entry;
     id := PyStr.format (entry_time entry) ++ "|" ++
           PyStr.format (entry_message entry) |}.

(** The loop of lines 74-83. *)
Fixpoint failed_logins (log_entries : list LogEntry) : list FailureRecord :=
  match log_entries with
  | [] => []
  | entry :: rest =>
      if is_failure entry
      then record_of entry :: failed_logins rest
      else failed_logins rest
  end.

(** ** The regular expression of [extract_ip]

    A backtracking matcher in continuation-passing style, as [re] runs it:
    a greedy bounded repeat tries one more iteration first and falls back to
    the continuation, [search] tries the start positions from left to
    right.  A matcher state is the character before the position (for
    [\b]) and the text that remains. *)

Module Re.

Inductive regex :=
| Class (p : ascii -> bool)          (* a character class *)
| WordBoundary                       (* \b *)
| Cat (r1 r2 : regex)                (* r1 r2 *)
| Repeat (lo hi : nat) (r : regex).  (* (?:r){lo,hi}, greedy *)

Definition cont := option ascii -> string -> option string.

Definition word_before (prev : option ascii) : bool :=
  match prev with Some c => PyStr.is_word c | None => false end.

Definition word_after (s : string) : bool :=
  match s with String c _ => PyStr.is_word c | EmptyString => false end.

Definition at_boundary (prev : option ascii) (s : string) : bool :=
  xorb (word_before prev) (word_after s).

(** [run r k prev s]: the text matched from here on by [r] followed by
    whatever [k] matches, or [None]. *)
Fixpoint run (r : regex) (k : cont) (prev : option ascii) (s : string)
  {struct r} : option string :=
  match r with
  | Class p =>
      match s with
      | String c s' =>
          if p c then option_map (String c) (k (Some c) s') else None
      | EmptyString => None
      end
  | WordBoundary => if at_boundary prev s then k prev s else None
  | Cat r1 r2 => run r1 (run r2 k) prev s
  | Repeat lo hi r' =>
      (fix rep (lo hi : nat) (k : cont) (prev : option ascii) (s : string)
         {struct hi} : option string :=
         match hi with
         | O => if (lo =? 0)%nat then k prev s else None
         | S hi' =>
             match run r' (rep (Nat.pred lo) hi' k) prev s with
             | Some m => Some m
             | None => if (lo =? 0)%nat then k prev s else None
             end
         end) lo hi k prev s
  end.

Definition accept : cont := fun _ _ => Some "".

(** [re.search(r, s)] followed by [.group(0)] *)
Fixpoint search_from (r : regex) (prev : option ascii) (s : string)
  : option string :=
  match run r accept prev s with
  | Some m => Some m
  | None =>
      match s with
      | String c s' => search_from r (Some c) s'
      | EmptyString => None
      end
  end.

Definition search (r : regex) (s : string) : option string :=
  search_from r None s.

Definition digit : regex := Class PyStr.is_digit.
Definition dot : regex := Class (Ascii.eqb "."%char).

(** [(?:[0-9]{1,3}\.)] *)
Definition group : regex := Cat (Repeat 1 3 digit) dot.

End Re.

(** [r'\b(?:[0-9]{1,3}\.){3}[0-9]{1,3}\b'] *)
Definition ip_pattern : Re.regex :=
  Re.Cat Re.WordBoundary
    (Re.Cat (Re.Repeat 3 3 Re.group)
       (Re.Cat (Re.Repeat 1 3 Re.digit) Re.WordBoundary)).

Definition extract_ip (message : string) : option string :=
  Re.search ip_pattern message.

(** ** Exceptions *)

Inductive exn :=
| KeyError (key : string)
| EmptyDataError
| ParserError.

Inductive result (A : Type) :=
| Ok (a : A)
| Raise (e : exn).
Arguments Ok {A} a.
Arguments Raise {A} e.

(** ** The diff against the ledger (line 88) *)

(** [pd.Series.isin] on the [id] column *)
Definition isin (x : string) (values : list string) : bool :=
  existsb (String.eqb x) values.

(** [df[~df['id'].isin(existing_df.get('id', []))].copy()] where
    [df = pd.DataFrame(failed_logins)].  A frame built from the empty list
    has no column at all, and [df['id']] raises [KeyError]. *)
Definition new_entries (failed : list FailureRecord)
  (existing : list FailureRecord) : result (list FailureRecord) :=
  match failed with
  | [] => Raise (KeyError "id")
  | _ :: _ =>
      Ok (filter (fun r => negb (isin (id r) (map id existing))) failed)
  end.

(** ** Brute-force detection (lines 105-116) *)

(** [pd.to_datetime(column, errors='coerce')]: one cell per cell of the
    column, [None] ([NaT]) where the value does not parse; the value is in
    nanoseconds. *)
Record DatetimeParser := mkDatetimeParser {
  to_datetime : list (option string) -> list (option Z);
  to_datetime_length :
    forall column, length (to_datetime column) = length column
}.

(** A row of [new_entries] once the [ip] and [datetime] columns are set. *)
Record Row := mkRow {
  row_record : FailureRecord;
  row_ip : option string;
  row_datetime : option Z
}.

(** [new_entries['message'].apply(extract_ip)]; every record of
    [failed_logins] has a message (see [failed_logins_message]). *)
Definition ip_column (new : list FailureRecord) : list (option string) :=
  map (fun r => match message r with
                | Some m => extract_ip m
                | None => None
                end) new.

Definition datetime_column (P : DatetimeParser) (new : list FailureRecord)
  : list (option Z) :=
  to_datetime P (map time new).

Definition with_ip_datetime (P : DatetimeParser) (new : list FailureRecord)
  : list Row :=
  map (fun x => mkRow (fst (fst x)) (snd (fst x)) (snd x))
      (combine (combine new (ip_column new)) (datetime_column P new)).

(** A row with no missing cell. *)
Record CompleteRow := mkCompleteRow {
  c_time : string;
  c_message : string;
  c_topics : string;
  c_id : string;
  c_ip : string;
  c_datetime : Z
}.

Definition complete (row : Row) : option CompleteRow :=
  match time (row_record row), message (row_record row),
        topics (row_record row), row_ip row, row_datetime row with
  | Some t, Some m, Some tp, Some i, Some d =>
      Some (mkCompleteRow t m tp (id (row_record row)) i d)
  | _, _, _, _, _ => None
  end.

(** [DataFrame.dropna()]: a row with a missing cell in any column goes. *)
Fixpoint dropna (rows : list Row) : list CompleteRow :=
  match rows with
  | [] => []
  | row :: rest =>
      match complete row with
      | Some c => c :: dropna rest
      | None => dropna rest
      end
  end.

(** [defaultdict(list)]: keys in insertion order. *)
Definition attempts := list (string * list Z).

Fixpoint dict_get (ip : string) (d : attempts) : option (list Z) :=
  match d with
  | [] => None
  | (k, times) :: d' => if (ip =? k)%string then Some times else dict_get ip d'
  end.

(** [d[ip].append(t)] *)
Fixpoint dict_append (ip : string) (t : Z) (d : attempts) : attempts :=
  match d with
  | [] => [(ip, [t])]
  | (k, times) :: d' =>
      if (ip =? k)%string then (k, times ++ [t]) :: d'
      else (k, times) :: dict_append ip t d'
  end.

(** The loop of lines 108-110. *)
Definition ip_attempts (rows : list CompleteRow) : attempts :=
  fold_left (fun d row => dict_append (c_ip row) (c_datetime row) d) rows [].

(** [max(times)] and [min(times)]; only called on lists of length >= 2. *)
Definition py_max (times : list Z) : Z :=
  match times with
  | [] => 0%Z
  | t :: ts => fold_left Z.max ts t
  end.

Definition py_min (times : list Z) : Z :=
  match times with
  | [] => 0%Z
  | t :: ts => fold_left Z.min ts t
  end.

(** [timedelta(minutes=m)] in nanoseconds *)
Definition timedelta_minutes (m : Z) : Z := (m * 60 * 1000000000)%Z.

Definition is_brute_force (times : list Z) : bool :=
  (BRUTE_FORCE_THRESHOLD <=? length times)%nat &&
  (py_max times - py_min times <=? timedelta_minutes BRUTE_FORCE_WINDOW)%Z.

(** The comprehension of lines 112-116. *)
Definition brute_force_ips (d : attempts) : list string :=
  map fst (filter (fun item => is_brute_force (snd item)) d).

Definition detect (P : DatetimeParser) (new : list FailureRecord)
  : list string :=
  brute_force_ips (ip_attempts (dropna (with_ip_datetime P new))).

(** ** Files, I/O actions and the run *)

(** What a file holds.  [Blank] is a file that was opened for writing and
    holds nothing yet; a [Csv] holds the header and its rows. *)
Inductive file :=
| Blank
| Csv (rows : list FailureRecord)
| ReportText (generated : string) (table : list FailureRecord)
| AlertText (now : string) (threshold : nat) (window : Z) (ips : list string).

Definition fs := string -> option file.

Definition fs_update (path : string) (content : file) (disk : fs) : fs :=
  fun p => if (p =? path)%string then Some content else disk p.

Inductive status_line :=
| Banner
| Retrieved (n : nat)
| Logged (n : nat)
| NoNewFailedLogins
| BruteForceDetected (ips : list string)
| Error (e : exn).

(** The I/O a run performs.  Writing a file is two actions, as [open(path,
    "w")] empties the file before anything is written to it. *)
Inductive action :=
| Print (line : status_line)
| OpenW (path : string)
| Store (path : string) (content : file)
| OpenFile (path : string)
| Disconnect.

Definition exec (disk : fs) (a : action) : fs :=
  match a with
  | OpenW path => fs_update path Blank disk
  | Store path content => fs_update path content disk
  | Print _ | OpenFile _ | Disconnect => disk
  end.

Definition exec_all (acts : list action) (disk : fs) : fs :=
  fold_left exec acts disk.

Definition is_write (a : action) : bool :=
  match a with
  | OpenW _ | Store _ _ => true
  | Print _ | OpenFile _ | Disconnect => false
  end.

(** The values of the three [datetime.now()] calls of a run. *)
Record Clock := mkClock {
  timestamp : string;       (* line 96, "%Y-%m-%d_%H-%M" *)
  report_now : string;      (* line 100 *)
  alert_now : string        (* line 122 *)
}.

Definition report_file (clock : Clock) : string :=
  "failed_logins_" ++ timestamp clock ++ ".txt".

Definition alert_file (clock : Clock) : string :=
  "brute_force_alert_" ++ timestamp clock ++ ".txt".

(** [pd.read_csv(LOG_CSV) if os.path.exists(LOG_CSV) else pd.DataFrame()].
    The [Csv] content of the disk a run is given is the frame [read_csv]
    returns for the file; how it relates to the frame an earlier run
    handed to [to_csv] is the matter of [as_read].  A file that holds
    nothing has no header to parse. *)
Definition read_ledger (disk : fs) : result (list FailureRecord) :=
  match disk LOG_CSV with
  | None => Ok []
  | Some (Csv rows) => Ok rows
  | Some Blank => Raise EmptyDataError
  | Some _ => Raise ParserError
  end.

(** [pd.concat([existing_df, new_entries]).to_csv(LOG_CSV, index=False)] *)
Definition to_csv (rows : list FailureRecord) : list action :=
  [OpenW LOG_CSV; Store LOG_CSV (Csv rows)].

(** Lines 96-102. *)
Definition write_report (clock : Clock) (new : list FailureRecord)
  : list action :=
  [OpenW (report_file clock);
   Store (report_file clock) (ReportText (report_now clock) new);
   OpenFile (report_file clock)].

(** Lines 118-126. *)
Definition write_alert (clock : Clock) (ips : list string) : list action :=
  match ips with
  | [] => []
  | _ :: _ =>
      [OpenW (alert_file clock);
       Store (alert_file clock)
         (AlertText (alert_now clock) BRUTE_FORCE_THRESHOLD
            BRUTE_FORCE_WINDOW ips);
       Print (BruteForceDetected ips);
       OpenFile (alert_file clock)]
  end.

(** Lines 90-128, once [new] is computed. *)
Definition save_results (P : DatetimeParser) (clock : Clock)
  (existing new : list FailureRecord) : list action :=
  match new with
  | [] => [Print NoNewFailedLogins]
  | _ :: _ =>
      to_csv (existing ++ new) ++
      [Print (Logged (length new))] ++
      write_report clock new ++
      write_alert clock (detect P new)
  end.

(** The [try] block from line 73 on; an exception is caught by line 130. *)
Definition process (P : DatetimeParser) (clock : Clock)
  (log_entries : list LogEntry) (disk : fs) : list action :=
  match read_ledger disk with
  | Raise e => [Print (Error e)]
  | Ok existing =>
      match new_entries (failed_logins log_entries) existing with
      | Raise e => [Print (Error e)]
      | Ok new => save_results P clock existing new
      end
  end.

(** [main()], from the log entries the router returned. *)
Definition main (P : DatetimeParser) (clock : Clock)
  (log_entries : list LogEntry) (disk : fs) : list action :=
  [Print Banner; Print (Retrieved (length log_entries))] ++
  process P clock log_entries disk ++
  [Disconnect].

(** The disk when the run is interrupted after its first [n] actions. *)
Definition interrupted (n : nat) (acts : list action) (disk : fs) : fs :=
  exec_all (firstn n acts) disk.

(** ** A parser instance: [YYYY-MM-DD HH:MM:SS]

    [to_datetime] on a column of timestamps in this format, or of text
    that is no timestamp in any format. *)

Module Iso.

Local Open Scope Z_scope.

Definition digit_value (c : ascii) : option Z :=
  if PyStr.is_digit c then Some (Z.of_nat (PyStr.code c - 48)) else None.

Fixpoint number (s : string) (acc : Z) : option Z :=
  match s with
  | EmptyString => Some acc
  | String c s' =>
      match digit_value c with
      | Some d => number s' (10 * acc + d)
      | None => None
      end
  end.

Definition field (start len : nat) (s : string) : option Z :=
  number (substring start len s) 0.

Definition is_leap (y : Z) : bool :=
  ((y mod 4 =? 0) && negb (y mod 100 =? 0)) || (y mod 400 =? 0).

Definition days_in_month (y m : Z) : Z :=
  if m =? 2 then (if is_leap y then 29 else 28)
  else if (m =? 4) || (m =? 6) || (m =? 9) || (m =? 11) then 30
  else 31.

(** Days since 1970-01-01 in the proleptic Gregorian calendar. *)
Definition days_from_civil (y m d : Z) : Z :=
  let y' := if m <=? 2 then y - 1 else y in
  let era := y' / 400 in
  let yoe := y' - era * 400 in
  let doy := (153 * (if 2 <? m then m - 3 else m + 9) + 2) / 5 + d - 1 in
  let doe := yoe * 365 + yoe / 4 - yoe / 100 + doy in
  era * 146097 + doe - 719468.

Definition separators_ok (s : string) : bool :=
  match get 4 s, get 7 s, get 10 s, get 13 s, get 16 s with
  | Some a, Some b, Some c, Some d, Some e =>
      Ascii.eqb a "-" && Ascii.eqb b "-" && Ascii.eqb c " " &&
      Ascii.eqb d ":" && Ascii.eqb e ":"
  | _, _, _, _, _ => false
  end.

Definition parse (s : string) : option Z :=
  if negb ((String.length s =? 19)%nat && separators_ok s) then None else
  match field 0 4 s, field 5 2 s, field 8 2 s,
        field 11 2 s, field 14 2 s, field 17 2 s with
  | Some y, Some mo, Some d, Some h, Some mi, Some sec =>
      if (1 <=? mo) && (mo <=? 12) && (1 <=? d) && (d <=? days_in_month y mo)
         && (h <? 24) && (mi <? 60) && (sec <? 60)
      then Some ((days_from_civil y mo d * 86400 + h * 3600 + mi * 60 + sec)
                 * 1000000000)
      else None
  | _, _, _, _, _, _ => None
  end.

Definition column (col : list (option string)) : list (option Z) :=
  map (fun cell => match cell with Some s => parse s | None => None end) col.

Definition parser : DatetimeParser :=
  mkDatetimeParser column (fun col => length_map _ col).

End Iso.

(** ** Configuration, connection and viewer (lines 27-57, 62-72, 130-134)

    What the program is given from outside its processing: the
    configuration file, the router behind the API, the platform and the
    desktop viewer. *)

(** The exceptions of the stages around the processing. *)
Inductive error :=
| Python (e : exn)
| FileNotFoundError (path : string)
| JSONDecodeError
| RouterOsApiError (reason : string)
| OSError (reason : string).

Inductive outcome (A : Type) :=
| Done (a : A)
| Failed (e : error).
Arguments Done {A} a.
Arguments Failed {A} e.

(** The dict [json.load] returns; the values are passed on as they are. *)
Definition Config := string -> option string.

Inductive config_file :=
| NoConfigFile
| NotJson
| JsonDict (config : Config).

(** [load_config()] *)
Definition load_config (f : config_file) : outcome Config :=
  match f with
  | NoConfigFile => Failed (FileNotFoundError CONFIG_FILE)
  | NotJson => Failed JSONDecodeError
  | JsonDict config => Done config
  end.

(** [config[key]] *)
Definition getitem (config : Config) (key : string) : result string :=
  match config key with
  | Some v => Ok v
  | None => Raise (KeyError key)
  end.

Definition bind {A B : Type} (r : result A) (k : A -> result B) : result B :=
  match r with
  | Ok a => k a
  | Raise e => Raise e
  end.

Notation "x <- r ;; k" := (bind r (fun x => k))
  (at level 61, r at next level, right associativity).

(** The arguments [RouterOsApiPool] is built with. *)
Record PoolArgs := mkPoolArgs {
  pool_host : string;
  pool_username : string;
  pool_password : string;
  pool_port : string;
  plaintext_login : bool
}.

(** [connect_routeros(config)]: the four subscripts are evaluated in the
    order of the call's arguments. *)
Definition connect_routeros (config : Config) : result PoolArgs :=
  host <- getitem config "host" ;;
  username <- getitem config "username" ;;
  password <- getitem config "password" ;;
  port <- getitem config "port" ;;
  Ok (mkPoolArgs host username password port true).

(** What [open_file] hands to the platform. *)
Inductive command :=
| StartFile (filepath : string)            (* os.startfile(filepath) *)
| Call (argv : list string).               (* subprocess.call(argv) *)

(** What the program does, seen from outside. *)
Inductive event :=
| Io (a : action)
| Launch (c : command)
| CouldNotOpen (e : error)                 (* "[!] Could not open file: ..." *)
| Failure (e : error).                     (* "[!] Error: ..." *)

(** The platform's answer to a launch: [None] when it went through. *)
Definition Viewer := command -> option error.

Definition launch_command (platform filepath : string) : command :=
  if (platform =? "Windows")%string then StartFile filepath
  else if (platform =? "Darwin")%string then Call ["open"; filepath]
  else Call ["xdg-open"; filepath].

(** [open_file(filepath)] *)
Definition open_file (platform : string) (viewer : Viewer) (filepath : string)
  : list event :=
  let c := launch_command platform filepath in
  match viewer c with
  | None => [Launch c]
  | Some e => [Launch c; CouldNotOpen e]
  end.

(** An action of the processing, with [open_file] spelled out. *)
Definition perform (platform : string) (viewer : Viewer) (a : action)
  : list event :=
  match a with
  | OpenFile filepath => open_file platform viewer filepath
  | Print _ | OpenW _ | Store _ _ | Disconnect => [Io a]
  end.

(** [main()] from its first line: the [try] block, the [except] that
    prints the error, and the [finally] that disconnects when the name
    [connection] is bound. *)
Definition program (P : DatetimeParser) (clock : Clock)
  (platform : string) (viewer : Viewer) (f : config_file)
  (router : PoolArgs -> outcome (list LogEntry)) (disk : fs) : list event :=
  Io (Print Banner) ::
  match load_config f with
  | Failed e => [Failure e]
  | Done config =>
      match connect_routeros config with
      | Raise e => [Failure (Python e)]
      | Ok connection =>
          match router connection with
          | Failed e => [Failure e; Io Disconnect]
          | Done log_entries =>
              Io (Print (Retrieved (length log_entries))) ::
              flat_map (perform platform viewer)
                       (process P clock log_entries disk) ++
              [Io Disconnect]
          end
      end
  end.

(** The file actions among the events. *)
Fixpoint file_actions (events : list event) : list action :=
  match events with
  | [] => []
  | Io a :: rest =>
      if is_write a then a :: file_actions rest else file_actions rest
  | _ :: rest => file_actions rest
  end.

(** ** Interruption *)

(** An action that changes the ledger file. *)
Definition touches_ledger (a : action) : bool :=
  match a with
  | OpenW path | Store path _ => (path =? LOG_CSV)%string
  | Print _ | OpenFile _ | Disconnect => false
  end.

(** ** Vocabulary of the detection properties *)

(** The timestamps of the rows of one IP, in row order. *)
Definition times_of (ip : string) (rows : list CompleteRow) : list Z :=
  map c_datetime (filter (fun row => (c_ip row =? ip)%string) rows).

(** [a] occurs in [seen], and its first occurrence comes before any
    occurrence of [b]. *)
Definition first_seen_before (a b : string) (seen : list (option string))
  : Prop :=
  exists pre post,
    seen = pre ++ Some a :: post /\ ~ In (Some a) pre /\ ~ In (Some b) pre.

(** [a] comes before [b] in [l]. *)
Definition precedes (a b : string) (l : list string) : Prop :=
  exists l1 l2 l3, l = l1 ++ a :: l2 ++ b :: l3.

(** The message of the record yields [ip]. *)
Definition names_ip (ip : string) (r : FailureRecord) : bool :=
  match message r with
  | Some m =>
      match extract_ip m with
      | Some i => (i =? ip)%string
      | None => false
      end
  | None => false
  end.

(** ** Vocabulary of the extraction properties *)

(** The character before the position reached after [w]. *)
Fixpoint last_char (prev : option ascii) (w : string) : option ascii :=
  match w with
  | EmptyString => prev
  | String c w' => last_char (Some c) w'
  end.

(** [matches r prev w rest]: the text [w], found after the character [prev]
    and followed by [rest], is matched by [r]. *)
Inductive matches : Re.regex -> option ascii -> string -> string -> Prop :=
| m_class (p : ascii -> bool) c prev rest :
    p c = true -> matches (Re.Class p) prev (String c "") rest
| m_boundary prev rest :
    Re.at_boundary prev rest = true -> matches Re.WordBoundary prev "" rest
| m_cat r1 r2 prev w1 w2 rest :
    matches r1 prev w1 (w2 ++ rest) ->
    matches r2 (last_char prev w1) w2 rest ->
    matches (Re.Cat r1 r2) prev (w1 ++ w2) rest
| m_rep_stop hi r prev rest :
    matches (Re.Repeat 0 hi r) prev "" rest
| m_rep_more lo hi r prev w1 w2 rest :
    matches r prev w1 (w2 ++ rest) ->
    matches (Re.Repeat (Nat.pred lo) hi r) (last_char prev w1) w2 rest ->
    matches (Re.Repeat lo (S hi) r) prev (w1 ++ w2) rest.

Fixpoint all_digits (s : string) : bool :=
  match s with
  | EmptyString => true
  | String c s' => PyStr.is_digit c && all_digits s'
  end.

(** A group of 1 to 3 digits. *)
Definition octet (g : string) : Prop :=
  all_digits g = true /\ 1 <= String.length g <= 3.

(** Four groups of 1 to 3 digits separated by periods. *)
Definition dotted_quad (ip : string) : Prop :=
  exists a b c d,
    ip = (a ++ "." ++ b ++ "." ++ c ++ "." ++ d)%string /\
    octet a /\ octet b /\ octet c /\ octet d.

(** [pre] does not end, and [post] does not start, with a word character:
    what [\b] asks at both ends of a text that starts and ends with a digit
    and stands between [pre] and [post]. *)
Definition word_bounded (pre post : string) : Prop :=
  Re.word_before (last_char None pre) = false /\ Re.word_after post = false.

(** ** Sample inputs *)

Definition no_files : fs := fun _ => None.

Definition clock0 : Clock :=
  mkClock "2024-01-01_10-06" "2024-01-01 10:06:07.000001"
          "2024-01-01 10:06:07.000002".

(** The router logs the same failure twice within one second. *)
Definition repeated_failure : LogEntry :=
  mkLogEntry (Some "2024-01-01 10:00:00")
             (Some "login failure for user admin from 10.0.0.5 via ssh")
             (Some "system,error,critical").

Definition duplicate_batch : list LogEntry :=
  [repeated_failure; repeated_failure].

(** A ledger of one record, and a failure it does not hold. *)
Definition known_record : FailureRecord :=
  mkFailureRecord (Some "2023-12-31 23:59:00")
                  (Some "login failure for user root from 10.0.0.9 via ssh")
                  (Some "system,error,critical")
                  ("2023-12-31 23:59:00|" ++
                   "login failure for user root from 10.0.0.9 via ssh").

Definition one_record_disk : fs :=
  fs_update LOG_CSV (Csv [known_record]) no_files.

(** Five new failures: the first names 10.0.0.1 and carries no topics,
    then 10.0.0.2 and 10.0.0.1 twice each, all within one minute. *)
Definition mixed_batch : list LogEntry :=
  [mkLogEntry (Some "2024-01-01 10:00:00")
              (Some "login failure for user admin from 10.0.0.1 via ssh") None;
   mkLogEntry (Some "2024-01-01 10:00:10")
              (Some "login failure for user admin from 10.0.0.2 via ssh")
              (Some "system,error,critical");
   mkLogEntry (Some "2024-01-01 10:00:20")
              (Some "login failure for user admin from 10.0.0.1 via ssh")
              (Some "system,error,critical");
   mkLogEntry (Some "2024-01-01 10:00:30")
              (Some "login failure for user root from 10.0.0.1 via ssh")
              (Some "system,error,critical");
   mkLogEntry (Some "2024-01-01 10:00:40")
              (Some "login failure for user root from 10.0.0.2 via ssh")
              (Some "system,error,critical")].

(** Three attempts from 10.0.0.5 at t, t + 2 min and [third]. *)
Definition three_attempts (third : string) : list LogEntry :=
  [mkLogEntry (Some "2024-01-01 10:00:00")
              (Some "login failure for user admin from 10.0.0.5 via ssh")
              (Some "system,error,critical");
   mkLogEntry (Some "2024-01-01 10:02:00")
              (Some "login failure for user admin from 10.0.0.5 via ssh")
              (Some "system,error,critical");
   mkLogEntry (Some third)
              (Some "login failure for user admin from 10.0.0.5 via ssh")
              (Some "system,error,critical")].

(** A failure whose timestamp is no timestamp, between two that parse. *)
Definition unparseable_batch : list LogEntry :=
  [mkLogEntry (Some "2024-01-01 10:00:00")
              (Some "login failure for user admin from 10.0.0.5 via ssh")
              (Some "system,error,critical");
   mkLogEntry (Some "unknown")
              (Some "login failure for user admin from 10.0.0.5 via ssh")
              (Some "system,error,critical");
   mkLogEntry (Some "2024-01-01 10:09:00")
              (Some "login failure for user admin from 10.0.0.5 via ssh")
              (Some "system,error,critical")].

(** Only digits and periods. *)
Fixpoint digits_and_dots (s : string) : bool :=
  match s with
  | EmptyString => true
  | String c s' =>
      (PyStr.is_digit c || Ascii.eqb c ".") && digits_and_dots s'
  end.

(** A configuration with the four keys, a router that answers with one
    failure, and a desktop with no viewer. *)
Definition sample_config : Config :=
  fun key =>
    if (key =? "host")%string then Some "192.168.88.1"
    else if (key =? "username")%string then Some "monitor"
    else if (key =? "password")%string then Some "secret"
    else if (key =? "port")%string then Some "8728"
    else None.

Definition sample_router (connection : PoolArgs) : outcome (list LogEntry) :=
  Done [repeated_failure].

Definition no_viewer : Viewer :=
  fun _ => Some (OSError "no viewer").

(** ** Reading the ledger back

    The disk a run is given ([main]'s last argument) is the disk as the
    run reads it: the [Csv] content of its ledger is the frame [read_csv]
    returns.  What a run stores is the frame it hands to [to_csv].  The
    two differ by what writing a frame and reading the file back does to
    it, which depends on the cells (quoting, line ends, inferred types). *)

(** [read_csv] of the file [to_csv] wrote with these rows. *)
Definition Reread := list FailureRecord -> list FailureRecord.

(** The disk as the next run reads it. *)
Definition as_read (reread : Reread) (disk : fs) : fs :=
  fun p =>
    if (p =? LOG_CSV)%string then
      match disk p with
      | Some (Csv rows) => Some (Csv (reread rows))
      | other => other
      end
    else disk p.

(** A [Reread] instance: [to_csv] with the line feed as line terminator,
    which writes a carriage return as it is, and [read_csv], which takes
    a carriage return outside quotes as the end of a line, skips blank
    lines and reads an empty or absent field as missing.  It is meant for
    rows whose cells hold no comma, quote or line feed and are not read
    as numbers, booleans or missing-value markers; a missing [id] is kept
    as the empty text. *)
Module Posix.

Definition CR : ascii := "013"%char.

Fixpoint split (sep : ascii) (s : string) : list string :=
  match s with
  | EmptyString => [EmptyString]
  | String c s' =>
      if Ascii.eqb c sep then EmptyString :: split sep s'
      else match split sep s' with
           | [] => [String c EmptyString]
           | x :: xs => String c x :: xs
           end
  end.

(** A cell as [to_csv] writes it. *)
Definition cell (c : option string) : string :=
  match c with Some s => s | None => EmptyString end.

Definition row_text (r : FailureRecord) : string :=
  cell (time r) ++ "," ++ cell (message r) ++ "," ++ cell (topics r) ++ ","
  ++ id r.

Definition lines (r : FailureRecord) : list string :=
  filter (fun l => negb (l =? "")%string) (split CR (row_text r)).

(** A field as [read_csv] reads it. *)
Definition field (fields : list string) (n : nat) : option string :=
  match nth_error fields n with
  | Some EmptyString | None => None
  | Some s => Some s
  end.

Definition parse_line (line : string) : FailureRecord :=
  let fields := split "," line in
  mkFailureRecord (field fields 0) (field fields 1) (field fields 2)
                  (cell (field fields 3)).

Definition reread : Reread :=
  flat_map (fun r => map parse_line (lines r)).

End Posix.

(** A failure whose message holds a carriage return, and one with plain
    cells. *)
Definition cr_failure : LogEntry :=
  mkLogEntry (Some "2024-01-01 10:00:00")
             (Some ("login failure for user admin" ++
                    String Posix.CR "from 10.0.0.5 via ssh")%string)
             (Some "system").

Definition plain_failure : LogEntry :=
  mkLogEntry (Some "2024-01-01 10:00:00")
             (Some "login failure for user admin from 10.0.0.5 via ssh")
             (Some "system").


(** A batch that starts with the failure the ledger of [one_record_disk]
    holds, followed by two failures it does not hold. *)
Definition overlapping_batch : list LogEntry :=
  [mkLogEntry (Some "2023-12-31 23:59:00")
              (Some "login failure for user root from 10.0.0.9 via ssh")
              (Some "system,error,critical");
   repeated_failure;
   mkLogEntry (Some "2024-01-01 10:00:07")
              (Some "login failure for user admin from 10.0.0.5 via ssh")
              (Some "system,error,critical")].

(** * Properties *)

(** ** Strings *)

Module PyStrFacts.
Import PyStr.

Lemma append_nil_r (s : string) : (s ++ "")%string = s.
Proof. induction s as [|c s IH]; simpl; [reflexivity | now rewrite IH]. Qed.

Lemma append_assoc (a b c : string) :
  ((a ++ b) ++ c)%string = (a ++ b ++ c)%string.
Proof. induction a as [|x a IH]; simpl; [reflexivity | now rewrite IH]. Qed.

Lemma length_append (a b : string) :
  String.length (a ++ b)%string = String.length a + String.length b.
Proof. induction a as [|x a IH]; simpl; [reflexivity | now rewrite IH]. Qed.

Lemma startswith_iff (k s : string) :
  startswith k s = true <-> exists post, s = (k ++ post)%string.
Proof.
  revert s; induction k as [|a k IH]; intros s; simpl.
  - split; [intros _; now exists s | reflexivity].
  - destruct s as [|b s].
    + split; [discriminate | intros [post H]; discriminate].
    + rewrite andb_true_iff, Ascii.eqb_eq, IH. split.
      * intros [-> [post ->]]. now exists post.
      * intros [post H]. injection H as -> ->. split; [reflexivity | now exists post].
Qed.

Lemma contains_iff (k s : string) :
  contains k s = true <-> exists pre post, s = (pre ++ k ++ post)%string.
Proof.
  induction s as [|c s IH]; simpl.
  - rewrite orb_false_r, startswith_iff. split.
    + intros [post H]. now exists "", post.
    + intros [pre [post H]]. destruct pre; [now exists post | discriminate].
  - rewrite orb_true_iff, startswith_iff, IH. split.
    + intros [[post H] | [pre [post H]]].
      * now exists "", post.
      * exists (String c pre), post. simpl. now rewrite H.
    + intros [pre [post H]]. destruct pre as [|x pre]; simpl in H.
      * left. now exists post.
      * right. injection H as _ H. now exists pre, post.
Qed.

End PyStrFacts.

(** ** Classification *)

Lemma failed_logins_filter (log_entries : list LogEntry) :
  failed_logins log_entries = map record_of (filter is_failure log_entries).
Proof.
  induction log_entries as [|entry rest IH]; simpl; [reflexivity|].
  destruct (is_failure entry); simpl; now rewrite IH.
Qed.

Lemma failed_logins_app (l1 l2 : list LogEntry) :
  failed_logins (l1 ++ l2) = failed_logins l1 ++ failed_logins l2.
Proof. now rewrite !failed_logins_filter, filter_app, map_app. Qed.

Lemma is_failure_iff (entry : LogEntry) :
  is_failure entry = true <->
  exists keyword pre post,
    In keyword FAILURE_KEYWORDS /\
    lowered_message entry = (pre ++ keyword ++ post)%string.
Proof.
  unfold is_failure. rewrite existsb_exists. split.
  - intros [keyword [Hin H]]. apply PyStrFacts.contains_iff in H.
    destruct H as [pre [post H]]. now exists keyword, pre, post.
  - intros [keyword [pre [post [Hin H]]]]. exists keyword. split; [exact Hin|].
    apply PyStrFacts.contains_iff. now exists pre, post.
Qed.

(** No keyword is the empty string, so an entry without a message is never
    classified, and every record carries a message. *)
Lemma failed_logins_message (log_entries : list LogEntry) (r : FailureRecord) :
  In r (failed_logins log_entries) -> exists m, message r = Some m.
Proof.
  rewrite failed_logins_filter, in_map_iff.
  intros [entry [<- Hin]]. apply filter_In in Hin. destruct Hin as [_ H].
  destruct entry as [t [m|] tp]; simpl.
  - now exists m.
  - discriminate H.
Qed.

(** C5: a log entry yields a failure record exactly when its lower-cased
    message contains one of the four keywords as a substring; the output is
    one record per such entry, in order, and nothing for any other entry. *)
Theorem classifier_keyword_match :
  (forall entry,
      is_failure entry = true <->
      exists keyword pre post,
        In keyword ["login failure"; "failed"; "denied"; "invalid"] /\
        PyStr.lower (match entry_message entry with
                     | Some m => m
                     | None => ""
                     end) = (pre ++ keyword ++ post)%string) /\
  (forall before entry after,
      failed_logins (before ++ entry :: after) =
      failed_logins before ++
      (if is_failure entry then [record_of entry] else []) ++
      failed_logins after) /\
  (forall log_entries,
      failed_logins log_entries =
      map record_of (filter is_failure log_entries)).
Proof.
  split; [exact is_failure_iff|]. split; [|exact failed_logins_filter].
  intros before entry after.
  rewrite failed_logins_app. simpl. now destruct (is_failure entry).
Qed.

(** ** The diff against the ledger *)

Lemma isin_iff (x : string) (values : list string) :
  isin x values = true <-> In x values.
Proof.
  unfold isin. rewrite existsb_exists. split.
  - intros [y [Hin H]]. apply String.eqb_eq in H. now subst.
  - intros H. exists x. split; [exact H | apply String.eqb_refl].
Qed.


(** On a batch with at least one candidate the frame has its [id] column
    and the diff is the order-preserving filter. *)
Lemma new_entries_cons (c : FailureRecord) (cs existing : list FailureRecord) :
  new_entries (c :: cs) existing =
  Ok (filter (fun r => negb (isin (id r) (map id existing))) (c :: cs)).
Proof. reflexivity. Qed.

Lemma new_entries_ok (failed existing new : list FailureRecord) :
  new_entries failed existing = Ok new ->
  failed <> [] /\
  new = filter (fun r => negb (isin (id r) (map id existing))) failed.
Proof.
  destruct failed as [|c cs]; [discriminate|].
  rewrite new_entries_cons. intros H. injection H as <-. split; [discriminate | reflexivity].
Qed.

Lemma new_entries_In (failed existing new : list FailureRecord) (r : FailureRecord) :
  new_entries failed existing = Ok new ->
  In r new <-> In r failed /\ ~ In (id r) (map id existing).
Proof.
  intros H. apply new_entries_ok in H. destruct H as [_ ->].
  rewrite filter_In, negb_true_iff, <- not_true_iff_false, isin_iff. reflexivity.
Qed.


(** C3: the diff on an empty batch of candidates.  The frame built from no
    record has no [id] column, [df['id']] raises [KeyError] and the run
    ends on the error line, where the claim has the diff return the empty
    sequence. *)
Theorem diff_of_no_candidate_raises :
  (forall existing, new_entries [] existing = Raise (KeyError "id")) /\
  (forall P clock,
      main P clock [] (fun _ => None) =
      [Print Banner; Print (Retrieved 0); Print (Error (KeyError "id"));
       Disconnect]).
Proof. split; reflexivity. Qed.

(** ** The file system *)

Lemma report_file_not_ledger (clock : Clock) : report_file clock <> LOG_CSV.
Proof.
  unfold report_file, LOG_CSV. simpl. intros H.
  repeat (injection H as _ H). revert H.
  generalize (timestamp clock) as ts. intros ts H.
  do 11 (destruct ts as [|? ts]; simpl in H;
         [discriminate H | try discriminate H; injection H as _ H]).
Qed.

Lemma alert_file_not_ledger (clock : Clock) : alert_file clock <> LOG_CSV.
Proof. unfold alert_file, LOG_CSV. simpl. discriminate. Qed.

Lemma exec_all_app (a b : list action) (disk : fs) :
  exec_all (a ++ b) disk = exec_all b (exec_all a disk).
Proof. apply fold_left_app. Qed.

Lemma fs_update_same (path : string) (content : file) (disk : fs) :
  fs_update path content disk path = Some content.
Proof. unfold fs_update. now rewrite String.eqb_refl. Qed.

Lemma fs_update_other (path p : string) (content : file) (disk : fs) :
  p <> path -> fs_update path content disk p = disk p.
Proof. unfold fs_update. intros H. apply String.eqb_neq in H. now rewrite H. Qed.

Lemma write_report_ledger (clock : Clock) (new : list FailureRecord) (disk : fs) :
  exec_all (write_report clock new) disk LOG_CSV = disk LOG_CSV.
Proof.
  unfold write_report, exec_all. simpl.
  rewrite !fs_update_other; auto using not_eq_sym, report_file_not_ledger.
Qed.

Lemma write_alert_ledger (clock : Clock) (ips : list string) (disk : fs) :
  exec_all (write_alert clock ips) disk LOG_CSV = disk LOG_CSV.
Proof.
  destruct ips as [|ip ips]; [reflexivity|].
  unfold write_alert, exec_all. simpl.
  rewrite !fs_update_other; auto using not_eq_sym, alert_file_not_ledger.
Qed.

(** The ledger file after [save_results]. *)
Lemma save_results_ledger (P : DatetimeParser) (clock : Clock)
  (existing new : list FailureRecord) (disk : fs) :
  exec_all (save_results P clock existing new) disk LOG_CSV =
  match new with
  | [] => disk LOG_CSV
  | _ :: _ => Some (Csv (existing ++ new))
  end.
Proof.
  destruct new as [|r new]; [reflexivity|].
  unfold save_results. rewrite !exec_all_app.
  rewrite write_alert_ledger, write_report_ledger. reflexivity.
Qed.

(** Printing and disconnecting leave the disk alone. *)
Lemma main_exec (P : DatetimeParser) (clock : Clock)
  (log_entries : list LogEntry) (disk d : fs) :
  exec_all (main P clock log_entries disk) d =
  exec_all (process P clock log_entries disk) d.
Proof. unfold main. now rewrite !exec_all_app. Qed.

Lemma main_ledger (P : DatetimeParser) (clock : Clock)
  (log_entries : list LogEntry) (disk : fs) :
  exec_all (main P clock log_entries disk) disk LOG_CSV =
  match read_ledger disk with
  | Raise _ => disk LOG_CSV
  | Ok existing =>
      match new_entries (failed_logins log_entries) existing with
      | Raise _ | Ok [] => disk LOG_CSV
      | Ok new => Some (Csv (existing ++ new))
      end
  end.
Proof.
  rewrite main_exec. unfold process.
  destruct (read_ledger disk) as [existing|e]; [|reflexivity].
  destruct (new_entries (failed_logins log_entries) existing) as [new|e];
    [|reflexivity].
  rewrite save_results_ledger. now destruct new.
Qed.

(** What is read of the ledger depends on the ledger file only. *)
Lemma read_ledger_ext (d1 d2 : fs) :
  d1 LOG_CSV = d2 LOG_CSV -> read_ledger d1 = read_ledger d2.
Proof. unfold read_ledger. now intros ->. Qed.

(** ** A second run *)


(** The ledger file after the actions of a run, on whatever disk they
    are performed. *)
Lemma main_ledger_on (P : DatetimeParser) (clock : Clock)
  (log_entries : list LogEntry) (view disk : fs) :
  exec_all (main P clock log_entries view) disk LOG_CSV =
  match read_ledger view with
  | Raise _ => disk LOG_CSV
  | Ok existing =>
      match new_entries (failed_logins log_entries) existing with
      | Raise _ | Ok [] => disk LOG_CSV
      | Ok new => Some (Csv (existing ++ new))
      end
  end.
Proof.
  rewrite main_exec. unfold process.
  destruct (read_ledger view) as [existing|e]; [|reflexivity].
  destruct (new_entries (failed_logins log_entries) existing) as [new|e];
    [|reflexivity].
  rewrite save_results_ledger. now destruct new.
Qed.




Section SecondRun.

Variable reread : Reread.
Variable P : DatetimeParser.
Variables clock1 clock2 : Clock.
Variable log_entries : list LogEntry.
Variable disk : fs.


(** When the first run writes the ledger, the second reads back the id
    of every failure of the batch. *)
Hypothesis ids_read_back :
  forall existing r0 new0,
    read_ledger (as_read reread disk) = Ok existing ->
    new_entries (failed_logins log_entries) existing = Ok (r0 :: new0) ->
    forall r,
      In r (failed_logins log_entries) ->
      In (id r) (map id (reread (existing ++ r0 :: new0))).



End SecondRun.




(** ** The ledger invariant *)

Lemma NoDup_map_filter {V K : Type} (key : V -> K) (keep : V -> bool) :
  forall items : list V,
    NoDup (map key items) -> NoDup (map key (filter keep items)).
Proof.
  intros items. induction items as [|v items IH]; simpl; intros H.
  - constructor.
  - apply NoDup_cons_iff in H. destruct H as [Hnin Hnd].
    destruct (keep v); simpl; [|now apply IH].
    constructor; [|now apply IH].
    intros Hin. apply Hnin. apply in_map_iff in Hin.
    destruct Hin as [y [Hy Hin]]. apply filter_In in Hin.
    apply in_map_iff. exists y. tauto.
Qed.

Lemma diff_keeps_identities_distinct (failed existing new : list FailureRecord) :
  new_entries failed existing = Ok new ->
  NoDup (map id existing) ->
  NoDup (map id failed) ->
  NoDup (map id (existing ++ new)).
Proof.
  intros N He Hf. rewrite map_app. apply NoDup_app.
  - exact He.
  - destruct (new_entries_ok _ _ _ N) as [_ ->]. now apply NoDup_map_filter.
  - intros x Hx Hx'. apply in_map_iff in Hx'. destruct Hx' as [r [<- Hr]].
    apply (new_entries_In _ _ _ r N) in Hr. tauto.
Qed.

(** C7, as stated, fails: the run appends both copies of a failure that
    the router returned twice in one batch, and the ledger, whose
    identities were distinct before, holds one identity twice. *)
Lemma ledger_invariant_broken_by_duplicate_batch :
  read_ledger no_files = Ok [] /\
  NoDup (map id (@nil FailureRecord)) /\
  read_ledger
    (exec_all (main Iso.parser clock0 duplicate_batch no_files) no_files) =
  Ok [record_of repeated_failure; record_of repeated_failure] /\
  ~ NoDup (map id [record_of repeated_failure; record_of repeated_failure]).
Proof.
  split; [reflexivity|]. split; [constructor|]. split; [reflexivity|].
  intros H. inversion H as [|x xs Hnin _]; subst. apply Hnin. now left.
Qed.

(** C7, amended: when the identities of the ledger are pairwise distinct
    and so are the identities of the failures of the fetched batch, the
    ledger after the run can be read and its identities are pairwise
    distinct. *)
Theorem ledger_identities_stay_distinct :
  forall (P : DatetimeParser) (clock : Clock) (log_entries : list LogEntry)
         (disk : fs) (existing : list FailureRecord),
    read_ledger disk = Ok existing ->
    NoDup (map id existing) ->
    NoDup (map id (failed_logins log_entries)) ->
    exists rows,
      read_ledger (exec_all (main P clock log_entries disk) disk) = Ok rows /\
      NoDup (map id rows).
Proof.
  intros P clock log_entries disk existing R He Hf.
  assert (L := main_ledger P clock log_entries disk). rewrite R in L.
  destruct (new_entries (failed_logins log_entries) existing) as [new|e] eqn:N.
  - destruct new as [|r new].
    + exists existing. now rewrite (read_ledger_ext _ _ L).
    + exists (existing ++ r :: new). split.
      * unfold read_ledger. now rewrite L.
      * now apply (diff_keeps_identities_distinct _ _ _ N).
  - exists existing. now rewrite (read_ledger_ext _ _ L).
Qed.

Lemma ledger_identities_stay_distinct_witness :
  read_ledger one_record_disk = Ok [known_record] /\
  map id (failed_logins overlapping_batch) =
  [id known_record;
   "2024-01-01 10:00:00|login failure for user admin from 10.0.0.5 via ssh";
   "2024-01-01 10:00:07|login failure for user admin from 10.0.0.5 via ssh"]
  /\
  exists rows,
    read_ledger
      (exec_all (main Iso.parser clock0 overlapping_batch one_record_disk)
                one_record_disk) = Ok rows /\
    NoDup (map id rows).
Proof.
  split; [reflexivity|]. split; [reflexivity|].
  apply (ledger_identities_stay_distinct Iso.parser clock0 overlapping_batch
           one_record_disk [known_record]).
  - reflexivity.
  - constructor; [intros [] | constructor].
  - vm_compute. repeat constructor; simpl; intuition discriminate.
Defined.

(** ** Interrupted runs *)

Lemma untouched_prefix (acts : list action) :
  Forall (fun a => touches_ledger a = false) acts ->
  forall n disk, interrupted n acts disk LOG_CSV = disk LOG_CSV.
Proof.
  unfold interrupted, exec_all.
  induction 1 as [|a acts Ha _ IH]; intros n disk.
  - now destruct n.
  - destruct n as [|n]; [reflexivity|]. simpl. rewrite IH.
    destruct a; simpl in *; try reflexivity;
      apply fs_update_other; intros E; apply String.eqb_neq in Ha; congruence.
Qed.

Lemma after_the_write_untouched (P : DatetimeParser) (clock : Clock)
  (new : list FailureRecord) :
  Forall (fun a => touches_ledger a = false)
    (([Print (Logged (length new))] ++ write_report clock new ++
      write_alert clock (detect P new)) ++ [Disconnect]).
Proof.
  assert (Hr : (report_file clock =? LOG_CSV)%string = false)
    by apply String.eqb_neq, report_file_not_ledger.
  assert (Ha : (alert_file clock =? LOG_CSV)%string = false)
    by apply String.eqb_neq, alert_file_not_ledger.
  apply Forall_app. split; [|repeat constructor].
  apply Forall_app. split; [repeat constructor|].
  apply Forall_app. split.
  - unfold write_report. repeat constructor; exact Hr.
  - unfold write_alert. destruct (detect P new); repeat constructor; exact Ha.
Qed.

(** The shape of a run: either no action touches the ledger file, or the
    run is two prints, the two actions of [to_csv], and actions that do not
    touch the ledger file. *)
Lemma main_shape (P : DatetimeParser) (clock : Clock)
  (log_entries : list LogEntry) (disk : fs) :
  Forall (fun a => touches_ledger a = false) (main P clock log_entries disk) \/
  exists existing new rest,
    read_ledger disk = Ok existing /\
    new_entries (failed_logins log_entries) existing = Ok new /\
    new <> [] /\
    Forall (fun a => touches_ledger a = false) rest /\
    main P clock log_entries disk =
    Print Banner :: Print (Retrieved (length log_entries)) ::
    OpenW LOG_CSV :: Store LOG_CSV (Csv (existing ++ new)) :: rest.
Proof.
  unfold main, process.
  destruct (read_ledger disk) as [existing|e]; [|left; repeat constructor].
  destruct (new_entries (failed_logins log_entries) existing) as [new|e] eqn:N;
    [|left; repeat constructor].
  destruct new as [|r new]; [left; repeat constructor|].
  right. exists existing, (r :: new). eexists.
  split; [reflexivity|]. split; [exact N|]. split; [discriminate|].
  split; [apply (after_the_write_untouched P clock (r :: new)) | reflexivity].
Qed.

(** C4, as stated, fails: the ledger holds one record and the run has one
    new record to append; interrupted after [to_csv] has opened the ledger
    for writing, the run leaves a ledger file that holds neither the old
    record alone nor the old record followed by the new one, and that the
    next run cannot read. *)
Lemma interrupted_append_loses_the_ledger :
  read_ledger one_record_disk = Ok [known_record] /\
  new_entries (failed_logins [repeated_failure]) [known_record] =
  Ok [record_of repeated_failure] /\
  let disk' :=
    interrupted 3 (main Iso.parser clock0 [repeated_failure] one_record_disk)
                one_record_disk in
  disk' LOG_CSV = Some Blank /\
  disk' LOG_CSV <> Some (Csv [known_record]) /\
  disk' LOG_CSV <> Some (Csv [known_record; record_of repeated_failure]) /\
  read_ledger disk' = Raise EmptyDataError.
Proof.
  split; [reflexivity|]. split; [reflexivity|]. simpl.
  split; [reflexivity|]. split; [discriminate|]. split; [discriminate|].
  reflexivity.
Qed.

(** C4, amended: a run interrupted after any number of its actions, other
    than between the two actions of the ledger write, leaves the ledger
    file either as it was or holding the old records followed by all the
    new ones. *)
Theorem ledger_whole_unless_interrupted_in_write :
  forall (P : DatetimeParser) (clock : Clock) (log_entries : list LogEntry)
         (disk : fs) (n : nat),
    last (firstn n (main P clock log_entries disk)) Disconnect
      <> OpenW LOG_CSV ->
    interrupted n (main P clock log_entries disk) disk LOG_CSV = disk LOG_CSV \/
    exists existing new,
      read_ledger disk = Ok existing /\
      new_entries (failed_logins log_entries) existing = Ok new /\
      new <> [] /\
      interrupted n (main P clock log_entries disk) disk LOG_CSV =
      Some (Csv (existing ++ new)).
Proof.
  intros P clock log_entries disk n Hlast.
  destruct (main_shape P clock log_entries disk)
    as [U | [existing [new [rest [R [N [Hne [U E]]]]]]]].
  - left. now apply untouched_prefix.
  - rewrite E in *.
    destruct n as [|[|[|[|n]]]]; try (left; reflexivity).
    + now elim Hlast.
    + right. exists existing, new. repeat split; try assumption.
      change (interrupted (S (S (S (S n)))) _ disk)
        with (interrupted n rest
                (fs_update LOG_CSV (Csv (existing ++ new))
                   (fs_update LOG_CSV Blank disk))).
      rewrite (untouched_prefix rest U). apply fs_update_same.
Qed.

Lemma ledger_whole_unless_interrupted_in_write_witness :
  interrupted 4 (main Iso.parser clock0 [repeated_failure] one_record_disk)
              one_record_disk LOG_CSV = one_record_disk LOG_CSV \/
  exists existing new,
    read_ledger one_record_disk = Ok existing /\
    new_entries (failed_logins [repeated_failure]) existing = Ok new /\
    new <> [] /\
    interrupted 4 (main Iso.parser clock0 [repeated_failure] one_record_disk)
                one_record_disk LOG_CSV =
    Some (Csv (existing ++ new)).
Proof.
  apply (ledger_whole_unless_interrupted_in_write Iso.parser clock0
           [repeated_failure] one_record_disk 4).
  vm_compute. discriminate.
Defined.

(** ** Grouping by IP *)

Lemma dict_get_append (ip k : string) (t : Z) (d : attempts) :
  dict_get ip (dict_append k t d) =
  if (ip =? k)%string
  then Some (match dict_get k d with Some ts => ts ++ [t] | None => [t] end)
  else dict_get ip d.
Proof.
  induction d as [|[k' ts] d IH]; simpl.
  - reflexivity.
  - destruct (k =? k')%string eqn:E; simpl.
    + apply String.eqb_eq in E. subst k'.
      destruct (ip =? k)%string; reflexivity.
    + destruct (ip =? k')%string eqn:E'; [|exact IH].
      destruct (ip =? k)%string eqn:E''; [|reflexivity].
      apply String.eqb_eq in E', E''. subst. now rewrite String.eqb_refl in E.
Qed.

Lemma dict_get_fold (ip : string) (rows : list CompleteRow) (d : attempts) :
  dict_get ip
    (fold_left (fun d row => dict_append (c_ip row) (c_datetime row) d) rows d) =
  match dict_get ip d, times_of ip rows with
  | Some ts, more => Some (ts ++ more)
  | None, [] => None
  | None, more => Some more
  end.
Proof.
  revert d. induction rows as [|row rows IH]; intros d.
  - simpl. destruct (dict_get ip d); [now rewrite app_nil_r | reflexivity].
  - simpl fold_left. rewrite IH, dict_get_append. unfold times_of. simpl.
    rewrite (String.eqb_sym (c_ip row) ip).
    destruct (ip =? c_ip row)%string eqn:E.
    + apply String.eqb_eq in E. subst ip. simpl.
      destruct (dict_get (c_ip row) d); [now rewrite <- app_assoc | reflexivity].
    + reflexivity.
Qed.

(** The list under an IP is the list of the timestamps of its rows. *)
Lemma ip_attempts_get (ip : string) (rows : list CompleteRow) :
  dict_get ip (ip_attempts rows) =
  match times_of ip rows with
  | [] => None
  | times => Some times
  end.
Proof. unfold ip_attempts. now rewrite dict_get_fold. Qed.

Lemma dict_append_keys (k : string) (t : Z) (d : attempts) :
  map fst (dict_append k t d) =
  if isin k (map fst d) then map fst d else map fst d ++ [k].
Proof.
  induction d as [|[k' ts] d IH]; simpl; [reflexivity|].
  destruct (k =? k')%string; simpl; [reflexivity|].
  rewrite IH. now destruct (isin k (map fst d)).
Qed.

Lemma dict_append_keys_NoDup (k : string) (t : Z) (d : attempts) :
  NoDup (map fst d) -> NoDup (map fst (dict_append k t d)).
Proof.
  intros H. rewrite dict_append_keys.
  destruct (isin k (map fst d)) eqn:E; [exact H|].
  apply NoDup_app; [exact H | repeat constructor; intros [] |].
  intros a Ha [<-|[]]. apply isin_iff in Ha. congruence.
Qed.

Lemma ip_attempts_keys_NoDup (rows : list CompleteRow) :
  NoDup (map fst (ip_attempts rows)).
Proof.
  unfold ip_attempts.
  assert (G : forall d, NoDup (map fst d) ->
    NoDup (map fst (fold_left
      (fun d row => dict_append (c_ip row) (c_datetime row) d) rows d))).
  { induction rows as [|row rows IH]; intros d H; [exact H|].
    simpl. apply IH. now apply dict_append_keys_NoDup. }
  apply G. constructor.
Qed.

Lemma dict_get_In (ip : string) (times : list Z) (d : attempts) :
  NoDup (map fst d) ->
  dict_get ip d = Some times <-> In (ip, times) d.
Proof.
  induction d as [|[k ts] d IH]; simpl; intros H.
  - split; [discriminate | contradiction].
  - inversion H as [|x xs Hnin Hnd]; subst.
    destruct (ip =? k)%string eqn:E.
    + apply String.eqb_eq in E. subst k. split.
      * intros Heq. injection Heq as ->. now left.
      * intros [Heq|Hin]; [now injection Heq as -> |].
        elim Hnin. apply in_map_iff. now exists (ip, times).
    + apply String.eqb_neq in E. rewrite (IH Hnd). split; [now right|].
      intros [Heq|Hin]; [injection Heq as -> ->; now elim E | exact Hin].
Qed.

(** ** The threshold rule *)

Lemma fold_max_spec (ts : list Z) (t : Z) :
  (forall x, In x (t :: ts) -> (x <= fold_left Z.max ts t)%Z) /\
  In (fold_left Z.max ts t) (t :: ts).
Proof.
  revert t. induction ts as [|u ts IH]; intros t; simpl.
  - split; [intros x [<-|[]]; lia | now left].
  - destruct (IH (Z.max t u)) as [Hle Hin]. split.
    + intros x [<-|[<-|Hx]].
      * specialize (Hle (Z.max t u) (or_introl eq_refl)). lia.
      * specialize (Hle (Z.max t u) (or_introl eq_refl)). lia.
      * apply Hle. now right.
    + destruct Hin as [Heq|Hin]; [|now right; right].
      rewrite <- Heq. destruct (Z.max_spec t u) as [[_ ->]|[_ ->]]; auto.
Qed.

Lemma fold_min_spec (ts : list Z) (t : Z) :
  (forall x, In x (t :: ts) -> (fold_left Z.min ts t <= x)%Z) /\
  In (fold_left Z.min ts t) (t :: ts).
Proof.
  revert t. induction ts as [|u ts IH]; intros t; simpl.
  - split; [intros x [<-|[]]; lia | now left].
  - destruct (IH (Z.min t u)) as [Hle Hin]. split.
    + intros x [<-|[<-|Hx]].
      * specialize (Hle (Z.min t u) (or_introl eq_refl)). lia.
      * specialize (Hle (Z.min t u) (or_introl eq_refl)). lia.
      * apply Hle. now right.
    + destruct Hin as [Heq|Hin]; [|now right; right].
      rewrite <- Heq. destruct (Z.min_spec t u) as [[_ ->]|[_ ->]]; auto.
Qed.

(** [is_brute_force] in terms of the earliest and the latest attempt. *)
Lemma is_brute_force_iff (times : list Z) :
  is_brute_force times = true <->
  (2 <= length times)%nat /\
  exists earliest latest,
    In earliest times /\ In latest times /\
    (forall t, In t times -> (earliest <= t <= latest)%Z) /\
    (latest - earliest <= 300000000000)%Z.
Proof.
  unfold is_brute_force, BRUTE_FORCE_THRESHOLD, BRUTE_FORCE_WINDOW.
  change (timedelta_minutes 5) with 300000000000%Z.
  rewrite andb_true_iff, Nat.leb_le, Z.leb_le.
  destruct times as [|t ts].
  - simpl. split; intros [H _]; lia.
  - unfold py_max, py_min.
    destruct (fold_max_spec ts t) as [Hmax Hmaxin].
    destruct (fold_min_spec ts t) as [Hmin Hminin].
    split.
    + intros [Hlen Hspan]. split; [exact Hlen|].
      exists (fold_left Z.min ts t), (fold_left Z.max ts t).
      repeat split; auto.
    + intros [Hlen [lo [hi [Hlo [Hhi [Hall Hspan]]]]]]. split; [exact Hlen|].
      pose proof (Hall _ Hmaxin). pose proof (Hall _ Hminin).
      pose proof (Hmax _ Hhi). pose proof (Hmin _ Hlo). lia.
Qed.

Lemma brute_force_ips_In (ip : string) (d : attempts) :
  NoDup (map fst d) ->
  In ip (brute_force_ips d) <->
  exists times, dict_get ip d = Some times /\ is_brute_force times = true.
Proof.
  intros H. unfold brute_force_ips. rewrite in_map_iff. split.
  - intros [[k times] [Hk Hin]]. simpl in Hk. subst k.
    apply filter_In in Hin. destruct Hin as [Hin Hb].
    exists times. split; [now apply dict_get_In | exact Hb].
  - intros [times [Hget Hb]]. exists (ip, times). split; [reflexivity|].
    apply filter_In. split; [now apply dict_get_In | exact Hb].
Qed.

(** C1: an IP is flagged exactly when its attempt list, as grouped from
    this run's new records (the timestamps of its rows, in order), has at
    least 2 timestamps and the latest is at most 5 minutes after the
    earliest; a span of exactly 5 minutes over exactly 2 attempts is a
    match, one nanosecond more is not. *)
Theorem brute_force_rule :
  forall (P : DatetimeParser) (new : list FailureRecord) (ip : string),
    let rows := dropna (with_ip_datetime P new) in
    (In ip (detect P new) <->
     exists times,
       dict_get ip (ip_attempts rows) = Some times /\
       (2 <= length times)%nat /\
       exists earliest latest,
         In earliest times /\ In latest times /\
         (forall t, In t times -> (earliest <= t <= latest)%Z) /\
         (latest - earliest <= 5 * 60 * 1000000000)%Z) /\
    (forall times,
        dict_get ip (ip_attempts rows) = Some times <->
        times = times_of ip rows /\ times <> []) /\
    (forall t : Z,
        brute_force_ips [(ip, [t; t + 5 * 60 * 1000000000])%Z] = [ip] /\
        brute_force_ips [(ip, [t; t + 5 * 60 * 1000000000 + 1])%Z] = []).
Proof.
  intros P new ip rows. split; [|split].
  - unfold detect. fold rows.
    rewrite (brute_force_ips_In ip _ (ip_attempts_keys_NoDup rows)).
    split; intros [times [Hget Hb]]; exists times; (split; [exact Hget|]);
      now apply is_brute_force_iff.
  - intros times. rewrite ip_attempts_get.
    destruct (times_of ip rows) as [|t ts].
    + split; [discriminate | intros [-> H]; now elim H].
    + split; [intros H; injection H as <-; split; [reflexivity | discriminate]
             | intros [-> _]; reflexivity].
  - intros t. unfold brute_force_ips, is_brute_force. simpl.
    change (timedelta_minutes BRUTE_FORCE_WINDOW) with 300000000000%Z.
    split.
    + destruct (Z.leb_spec (Z.max t (t + 300000000000) - Z.min t (t + 300000000000))
                           300000000000); [reflexivity | lia].
    + destruct (Z.leb_spec (Z.max t (t + 300000000000 + 1) -
                            Z.min t (t + 300000000000 + 1)) 300000000000);
        [lia | reflexivity].
Qed.

(** ** The rows of the detection frame *)

Lemma map_fst_combine {A B : Type} (a : list A) (b : list B) :
  length a = length b -> map fst (combine a b) = a.
Proof.
  revert b. induction a as [|x a IH]; intros [|y b] H; simpl in *;
    try discriminate; [reflexivity|]. f_equal. apply IH. now injection H.
Qed.

Lemma map_snd_combine {A B : Type} (a : list A) (b : list B) :
  length a = length b -> map snd (combine a b) = b.
Proof.
  revert b. induction a as [|x a IH]; intros [|y b] H; simpl in *;
    try discriminate; [reflexivity|]. f_equal. apply IH. now injection H.
Qed.

Section Rows.

Variable P : DatetimeParser.
Variable new : list FailureRecord.

Lemma ip_column_length : length (ip_column new) = length new.
Proof. apply length_map. Qed.

Lemma datetime_column_length : length (datetime_column P new) = length new.
Proof. unfold datetime_column. now rewrite to_datetime_length, length_map. Qed.

Lemma rows_inner_length :
  length (combine new (ip_column new)) = length (datetime_column P new).
Proof.
  rewrite length_combine, ip_column_length, datetime_column_length.
  apply Nat.min_id.
Qed.

(** One row per record, in order, with the cells of the two new columns. *)
Lemma rows_records : map row_record (with_ip_datetime P new) = new.
Proof.
  unfold with_ip_datetime. rewrite map_map. simpl.
  rewrite <- (map_map fst fst), (map_fst_combine _ _ rows_inner_length).
  apply map_fst_combine. symmetry. apply ip_column_length.
Qed.

Lemma rows_ips : map row_ip (with_ip_datetime P new) = ip_column new.
Proof.
  unfold with_ip_datetime. rewrite map_map. simpl.
  rewrite <- (map_map fst snd), (map_fst_combine _ _ rows_inner_length).
  apply map_snd_combine. symmetry. apply ip_column_length.
Qed.

Lemma rows_datetimes :
  map row_datetime (with_ip_datetime P new) = datetime_column P new.
Proof.
  unfold with_ip_datetime. rewrite map_map. simpl.
  apply (map_snd_combine _ _ rows_inner_length).
Qed.

Lemma row_at (i : nat) (r : FailureRecord) :
  nth_error new i = Some r ->
  exists l1 row l2,
    with_ip_datetime P new = l1 ++ row :: l2 /\
    length l1 = i /\
    row_record row = r /\
    Some (row_ip row) = nth_error (ip_column new) i /\
    Some (row_datetime row) = nth_error (datetime_column P new) i.
Proof.
  intros H.
  assert (Hr : nth_error (map row_record (with_ip_datetime P new)) i = Some r)
    by now rewrite rows_records.
  rewrite nth_error_map in Hr.
  destruct (nth_error (with_ip_datetime P new) i) as [row|] eqn:E;
    [|discriminate]. injection Hr as Hr.
  destruct (nth_error_split _ _ E) as [l1 [l2 [Hsplit Hlen]]].
  exists l1, row, l2. repeat split; try assumption.
  - now rewrite <- rows_ips, nth_error_map, E.
  - now rewrite <- rows_datetimes, nth_error_map, E.
Qed.

End Rows.

Lemma dropna_app (l1 l2 : list Row) : dropna (l1 ++ l2) = dropna l1 ++ dropna l2.
Proof.
  induction l1 as [|row l1 IH]; simpl; [reflexivity|].
  destruct (complete row); simpl; now rewrite IH.
Qed.

Lemma complete_None (row : Row) :
  complete row = None <->
  time (row_record row) = None \/ message (row_record row) = None \/
  topics (row_record row) = None \/ row_ip row = None \/
  row_datetime row = None.
Proof.
  unfold complete.
  destruct (time (row_record row)), (message (row_record row)),
    (topics (row_record row)), (row_ip row), (row_datetime row);
    split; intros H; try discriminate; try reflexivity; try tauto;
    repeat (destruct H as [H|H]; try discriminate).
Qed.

(** A row with a missing cell takes no part in the grouping: the frame
    without it groups the same. *)
Lemma dropna_incomplete (l1 l2 : list Row) (row : Row) :
  complete row = None -> dropna (l1 ++ row :: l2) = dropna (l1 ++ l2).
Proof. intros H. rewrite !dropna_app. simpl. now rewrite H. Qed.

(** ** The report *)

Lemma alert_file_not_report (clock : Clock) :
  alert_file clock <> report_file clock.
Proof. unfold alert_file, report_file. simpl. discriminate. Qed.

Lemma write_alert_report (clock : Clock) (ips : list string) (disk : fs) :
  exec_all (write_alert clock ips) disk (report_file clock) =
  disk (report_file clock).
Proof.
  destruct ips as [|ip ips]; [reflexivity|].
  unfold write_alert, exec_all. simpl.
  rewrite !fs_update_other; auto using not_eq_sym, alert_file_not_report.
Qed.

Lemma main_report (P : DatetimeParser) (clock : Clock)
  (log_entries : list LogEntry) (disk : fs)
  (existing new : list FailureRecord) :
  read_ledger disk = Ok existing ->
  new_entries (failed_logins log_entries) existing = Ok new ->
  new <> [] ->
  exec_all (main P clock log_entries disk) disk (report_file clock) =
  Some (ReportText (report_now clock) new).
Proof.
  intros R N Hne. rewrite main_exec. unfold process. rewrite R, N.
  destruct new as [|r new]; [now elim Hne|].
  unfold save_results. rewrite !exec_all_app, write_alert_report.
  unfold write_report, exec_all. simpl. apply fs_update_same.
Qed.

(** C6: a new record whose timestamp does not parse has a row with no
    [datetime]; the grouping runs on the frame as if the row were not
    there, while the record is in the ledger the run leaves and in the
    table of the report it writes. *)
Theorem unparseable_record_kept_but_not_grouped :
  forall (P : DatetimeParser) (clock : Clock) (log_entries : list LogEntry)
         (disk : fs) (existing new : list FailureRecord)
         (i : nat) (r : FailureRecord),
    read_ledger disk = Ok existing ->
    new_entries (failed_logins log_entries) existing = Ok new ->
    nth_error new i = Some r ->
    nth_error (datetime_column P new) i = Some None ->
    (exists l1 row l2,
        with_ip_datetime P new = l1 ++ row :: l2 /\
        length l1 = i /\ row_record row = r /\ row_datetime row = None /\
        dropna (with_ip_datetime P new) = dropna (l1 ++ l2) /\
        detect P new = brute_force_ips (ip_attempts (dropna (l1 ++ l2)))) /\
    (exists rows,
        read_ledger (exec_all (main P clock log_entries disk) disk) = Ok rows /\
        rows = existing ++ new /\ In r rows) /\
    (exists table,
        exec_all (main P clock log_entries disk) disk (report_file clock) =
        Some (ReportText (report_now clock) table) /\
        table = new /\ In r table).
Proof.
  intros P clock log_entries disk existing new i r R N Hr Hd.
  assert (Hin : In r new) by (eapply nth_error_In; eassumption).
  assert (Hne : new <> []) by (intros ->; contradiction).
  split; [|split].
  - destruct (row_at P new i r Hr) as [l1 [row [l2 [Hs [Hl [Hrec [_ Hdt]]]]]]].
    rewrite Hd in Hdt. injection Hdt as Hdt.
    assert (Hc : complete row = None) by (apply complete_None; tauto).
    exists l1, row, l2. repeat split; try assumption.
    + rewrite Hs. now apply dropna_incomplete.
    + unfold detect. rewrite Hs. now rewrite dropna_incomplete.
  - exists (existing ++ new). split; [|split; [reflexivity|]].
    + unfold read_ledger. rewrite main_ledger, R, N.
      destruct new; [now elim Hne | reflexivity].
    + apply in_or_app. now right.
  - exists new. split; [|split; [reflexivity | exact Hin]].
    now apply (main_report P clock log_entries disk existing new).
Qed.

Lemma unparseable_record_kept_but_not_grouped_witness :
  let new := failed_logins unparseable_batch in
  let after := exec_all (main Iso.parser clock0 unparseable_batch no_files)
                        no_files in
  (exists l1 row l2,
      with_ip_datetime Iso.parser new = l1 ++ row :: l2 /\
      length l1 = 1 /\
      row_record row = mkFailureRecord
        (Some "unknown")
        (Some "login failure for user admin from 10.0.0.5 via ssh")
        (Some "system,error,critical")
        "unknown|login failure for user admin from 10.0.0.5 via ssh" /\
      row_datetime row = None /\
      dropna (with_ip_datetime Iso.parser new) = dropna (l1 ++ l2) /\
      detect Iso.parser new =
      brute_force_ips (ip_attempts (dropna (l1 ++ l2)))) /\
  (exists rows,
      read_ledger after = Ok rows /\ rows = [] ++ new /\
      In (mkFailureRecord
            (Some "unknown")
            (Some "login failure for user admin from 10.0.0.5 via ssh")
            (Some "system,error,critical")
            "unknown|login failure for user admin from 10.0.0.5 via ssh")
         rows) /\
  (exists table,
      after (report_file clock0) =
      Some (ReportText (report_now clock0) table) /\
      table = new /\
      In (mkFailureRecord
            (Some "unknown")
            (Some "login failure for user admin from 10.0.0.5 via ssh")
            (Some "system,error,critical")
            "unknown|login failure for user admin from 10.0.0.5 via ssh")
         table).
Proof.
  apply (unparseable_record_kept_but_not_grouped Iso.parser clock0
           unparseable_batch no_files [] (failed_logins unparseable_batch) 1).
  - reflexivity.
  - reflexivity.
  - reflexivity.
  - reflexivity.
Defined.

(** C10: a row with any missing cell (time, message, topics, ip or
    datetime) takes no part in the grouping, whatever its other cells
    hold: the frame groups, and the detection flags, as if the row were
    not there. *)
Theorem incomplete_row_not_grouped :
  forall (P : DatetimeParser) (new : list FailureRecord)
         (l1 l2 : list Row) (row : Row),
    with_ip_datetime P new = l1 ++ row :: l2 ->
    time (row_record row) = None \/ message (row_record row) = None \/
    topics (row_record row) = None \/ row_ip row = None \/
    row_datetime row = None ->
    dropna (with_ip_datetime P new) = dropna (l1 ++ l2) /\
    ip_attempts (dropna (with_ip_datetime P new)) =
    ip_attempts (dropna (l1 ++ l2)) /\
    detect P new = brute_force_ips (ip_attempts (dropna (l1 ++ l2))).
Proof.
  intros P new l1 l2 row Hs Hmiss. apply complete_None in Hmiss.
  unfold detect. rewrite Hs, (dropna_incomplete l1 l2 row Hmiss). auto.
Qed.

(** Two attempts from 10.0.0.7 ten seconds apart, the first without
    topics: the IP is extracted and both timestamps parse, yet only one
    attempt is grouped and the IP is not flagged. *)
Lemma incomplete_row_not_grouped_witness :
  let new :=
    [mkFailureRecord (Some "2024-01-01 10:00:00")
       (Some "login failure for user admin from 10.0.0.7 via ssh") None
       "2024-01-01 10:00:00|login failure for user admin from 10.0.0.7 via ssh";
     mkFailureRecord (Some "2024-01-01 10:00:10")
       (Some "login failure for user admin from 10.0.0.7 via ssh")
       (Some "system,error,critical")
       "2024-01-01 10:00:10|login failure for user admin from 10.0.0.7 via ssh"]
  in
  let row := mkRow
       (mkFailureRecord (Some "2024-01-01 10:00:00")
          (Some "login failure for user admin from 10.0.0.7 via ssh") None
          "2024-01-01 10:00:00|login failure for user admin from 10.0.0.7 via ssh")
       (Some "10.0.0.7") (Some 1704103200000000000%Z) in
  let l2 := [mkRow
       (mkFailureRecord (Some "2024-01-01 10:00:10")
          (Some "login failure for user admin from 10.0.0.7 via ssh")
          (Some "system,error,critical")
          "2024-01-01 10:00:10|login failure for user admin from 10.0.0.7 via ssh")
       (Some "10.0.0.7") (Some 1704103210000000000%Z)] in
  with_ip_datetime Iso.parser new = [] ++ row :: l2 /\
  (dropna (with_ip_datetime Iso.parser new) = dropna ([] ++ l2) /\
   ip_attempts (dropna (with_ip_datetime Iso.parser new)) =
   ip_attempts (dropna ([] ++ l2)) /\
   detect Iso.parser new = brute_force_ips (ip_attempts (dropna ([] ++ l2)))) /\
  ip_attempts (dropna ([] ++ l2)) = [("10.0.0.7", [1704103210000000000%Z])] /\
  detect Iso.parser new = [].
Proof.
  intros new row l2.
  split; [reflexivity|]. split; [|split; reflexivity].
  apply (incomplete_row_not_grouped Iso.parser new [] l2 row).
  - reflexivity.
  - right. right. left. reflexivity.
Defined.

(** ** The order of the flagged IPs *)

Lemma in_split_first (x : string) (l : list string) :
  In x l -> exists pre post, l = pre ++ x :: post /\ ~ In x pre.
Proof.
  induction l as [|y l IH]; [contradiction|].
  intros H. destruct (string_dec y x) as [->|Hne].
  - exists [], l. split; [reflexivity | intros []].
  - destruct H as [->|H]; [now elim Hne|].
    destruct (IH H) as [pre [post [-> Hnin]]].
    exists (y :: pre), post. split; [reflexivity|].
    intros [->|Hin]; [now elim Hne | now elim Hnin].
Qed.

Lemma ip_attempts_snoc (rows : list CompleteRow) (row : CompleteRow) :
  ip_attempts (rows ++ [row]) =
  dict_append (c_ip row) (c_datetime row) (ip_attempts rows).
Proof. unfold ip_attempts. now rewrite fold_left_app. Qed.

Lemma ip_attempts_keys_In (rows : list CompleteRow) (ip : string) :
  In ip (map fst (ip_attempts rows)) <-> In ip (map c_ip rows).
Proof.
  induction rows as [|row rows IH] using rev_ind; [reflexivity|].
  rewrite ip_attempts_snoc, dict_append_keys, map_app, in_app_iff. simpl.
  destruct (isin (c_ip row) (map fst (ip_attempts rows))) eqn:E.
  - rewrite IH. split; [tauto|]. intros [H|[<-|[]]]; [exact H|].
    apply IH. now apply isin_iff.
  - rewrite in_app_iff, IH. simpl. tauto.
Qed.

(** The keys of the dict are in the order in which the rows first show
    them. *)
Lemma ip_attempts_keys_order (rows : list CompleteRow) (a b : string) :
  precedes a b (map fst (ip_attempts rows)) ->
  exists pre post,
    map c_ip rows = pre ++ a :: post /\ ~ In a pre /\ ~ In b pre /\ In b post.
Proof.
  induction rows as [|row rows IH] using rev_ind.
  - intros [l1 [l2 [l3 H]]]. simpl in H. now destruct l1.
  - rewrite ip_attempts_snoc, dict_append_keys, map_app. simpl.
    destruct (isin (c_ip row) (map fst (ip_attempts rows))) eqn:E.
    + intros H. destruct (IH H) as [pre [post [Hs [Ha [Hb Hin]]]]].
      exists pre, (post ++ [c_ip row]). rewrite Hs, <- app_assoc. simpl.
      repeat split; try assumption. apply in_or_app. now left.
    + intros [l1 [l2 [l3 H]]].
      destruct l3 as [|z l3] using rev_ind.
      * assert (H' : map fst (ip_attempts rows) ++ [c_ip row] =
                     (l1 ++ a :: l2) ++ [b])
          by (rewrite H, <- app_assoc; reflexivity).
        apply app_inj_tail in H'. destruct H' as [H' <-]. clear H.
        rename H' into H.
        assert (Hina : In a (map c_ip rows)).
        { apply ip_attempts_keys_In. rewrite H. apply in_or_app. right. now left. }
        assert (Hninb : ~ In (c_ip row) (map c_ip rows)).
        { intros Hin. apply ip_attempts_keys_In, isin_iff in Hin. congruence. }
        destruct (in_split_first a _ Hina) as [pre [post [Hs Ha]]].
        exists pre, (post ++ [c_ip row]). rewrite Hs, <- app_assoc. simpl.
        repeat split; try assumption.
        -- intros Hin. apply Hninb. rewrite Hs. apply in_or_app. now left.
        -- apply in_or_app. right. now left.
      * clear IHl3.
        assert (H' : map fst (ip_attempts rows) ++ [c_ip row] =
                     (l1 ++ a :: l2 ++ b :: l3) ++ [z]).
        { rewrite H, <- app_assoc. simpl. now rewrite <- app_assoc. }
        apply app_inj_tail in H'. destruct H' as [H' _].
        assert (Hp : precedes a b (map fst (ip_attempts rows)))
          by (now exists l1, l2, l3).
        destruct (IH Hp) as [pre [post [Hs [Ha [Hb Hin]]]]].
        exists pre, (post ++ [c_ip row]). rewrite Hs, <- app_assoc. simpl.
        repeat split; try assumption. apply in_or_app. now left.
Qed.

(** The comprehension keeps the order of the keys. *)
Lemma brute_force_ips_order (d : attempts) (a b : string) :
  precedes a b (brute_force_ips d) -> precedes a b (map fst d).
Proof.
  unfold brute_force_ips.
  induction d as [|[k ts] d IH]; simpl.
  - intros [l1 [l2 [l3 H]]]. now destruct l1.
  - assert (Lift : precedes a b (map fst d) -> precedes a b (k :: map fst d)).
    { intros [l1 [l2 [l3 H]]]. exists (k :: l1), l2, l3. simpl. now rewrite H. }
    destruct (is_brute_force ts); simpl; [|now intros H; apply Lift, IH].
    intros [l1 [l2 [l3 H]]]. destruct l1 as [|x l1]; simpl in H.
    + injection H as -> H.
      assert (Hb : In b (map fst (filter (fun item => is_brute_force (snd item)) d)))
        by (rewrite H; apply in_or_app; right; now left).
      apply in_map_iff in Hb. destruct Hb as [[k' ts'] [Hk Hb]]. simpl in Hk.
      subst k'. apply filter_In in Hb. destruct Hb as [Hb _].
      apply (in_map fst) in Hb. simpl in Hb.
      destruct (in_split _ _ Hb) as [m1 [m2 Hm]].
      exists [], m1, m2. simpl. now rewrite Hm.
    + injection H as -> H. apply Lift, IH. now exists l1, l2, l3.
Qed.

(** C9, as stated, fails: of five new failures the first names 10.0.0.1
    and the second 10.0.0.2, so 10.0.0.1 is the first IP seen among the new
    records; both IPs are flagged, and 10.0.0.2 is emitted first, because
    the first record has no topics and its row is dropped before the
    grouping. *)
Lemma flagged_order_not_first_seen_among_new :
  let new := failed_logins mixed_batch in
  ip_column new =
  [Some "10.0.0.1"; Some "10.0.0.2"; Some "10.0.0.1"; Some "10.0.0.1";
   Some "10.0.0.2"] /\
  detect Iso.parser new = ["10.0.0.2"; "10.0.0.1"] /\
  ~ (forall a b, precedes a b (detect Iso.parser new) ->
                 first_seen_before a b (ip_column new)).
Proof.
  split; [reflexivity|]. split; [reflexivity|].
  intros H.
  destruct (H "10.0.0.2" "10.0.0.1") as [pre [post [Hs [Ha Hb]]]].
  - now exists [], [], [].
  - change (ip_column (failed_logins mixed_batch))
      with [Some "10.0.0.1"; Some "10.0.0.2"; Some "10.0.0.1"; Some "10.0.0.1";
            Some "10.0.0.2"] in Hs.
    destruct pre as [|x pre]; [discriminate Hs|].
    injection Hs as <- _. apply Hb. now left.
Qed.

(** C9, amended: the flagged IPs are emitted in the order in which each
    is first seen among the rows that are grouped, that is the new records
    with no missing cell; an IP is emitted once. *)
Theorem flagged_in_first_grouped_order :
  forall (P : DatetimeParser) (new : list FailureRecord) (a b : string),
    precedes a b (detect P new) ->
    (exists pre post,
        map c_ip (dropna (with_ip_datetime P new)) = pre ++ a :: post /\
        ~ In a pre /\ ~ In b pre /\ In b post) /\
    NoDup (detect P new).
Proof.
  intros P new a b H. split.
  - apply ip_attempts_keys_order. now apply brute_force_ips_order.
  - unfold detect, brute_force_ips.
    apply NoDup_map_filter, ip_attempts_keys_NoDup.
Qed.

Lemma flagged_in_first_grouped_order_witness :
  (exists pre post,
      map c_ip (dropna (with_ip_datetime Iso.parser (failed_logins mixed_batch)))
      = pre ++ "10.0.0.2" :: post /\
      ~ In "10.0.0.2" pre /\ ~ In "10.0.0.1" pre /\ In "10.0.0.1" post) /\
  NoDup (detect Iso.parser (failed_logins mixed_batch)).
Proof.
  apply (flagged_in_first_grouped_order Iso.parser (failed_logins mixed_batch)
           "10.0.0.2" "10.0.0.1").
  exists [], [], []. reflexivity.
Defined.

(** ** The matcher *)

Module ReFacts.
Import Re PyStrFacts.

Lemma last_char_app (prev : option ascii) (w1 w2 : string) :
  last_char (last_char prev w1) w2 = last_char prev (w1 ++ w2)%string.
Proof. revert prev. induction w1 as [|c w1 IH]; intros prev; simpl; auto. Qed.

Lemma run_repeat_0 (lo : nat) (r : regex) (k : cont) prev s :
  run (Repeat lo 0 r) k prev s = if (lo =? 0)%nat then k prev s else None.
Proof. reflexivity. Qed.

Lemma run_repeat_S (lo hi : nat) (r : regex) (k : cont) prev s :
  run (Repeat lo (S hi) r) k prev s =
  match run r (run (Repeat (Nat.pred lo) hi r) k) prev s with
  | Some m => Some m
  | None => if (lo =? 0)%nat then k prev s else None
  end.
Proof. reflexivity. Qed.

Lemma matches_stop (lo hi : nat) (r : regex) (k : cont) prev s m :
  (if (lo =? 0)%nat then k prev s else None) = Some m ->
  exists w rest m',
    s = (w ++ rest)%string /\ matches (Repeat lo hi r) prev w rest /\
    k (last_char prev w) rest = Some m' /\ m = (w ++ m')%string.
Proof.
  destruct lo as [|lo]; simpl; [|discriminate].
  intros H. exists "", s, m. repeat split; auto. constructor.
Qed.

(** What the matcher returns is a match followed by what the continuation
    returned. *)
Lemma run_sound (r : regex) :
  forall (k : cont) prev s m,
    run r k prev s = Some m ->
    exists w rest m',
      s = (w ++ rest)%string /\ matches r prev w rest /\
      k (last_char prev w) rest = Some m' /\ m = (w ++ m')%string.
Proof.
  induction r as [p| |r1 IH1 r2 IH2|lo hi r IH]; intros k prev s m H.
  - simpl in H. destruct s as [|c s]; [discriminate|].
    destruct (p c) eqn:E; [|discriminate].
    destruct (k (Some c) s) as [m'|] eqn:K; [|discriminate].
    simpl in H. injection H as <-.
    exists (String c ""), s, m'. repeat split; auto. now constructor.
  - simpl in H. destruct (at_boundary prev s) eqn:E; [|discriminate].
    exists "", s, m. repeat split; auto. now constructor.
  - simpl in H. apply IH1 in H.
    destruct H as [w1 [rest1 [m1 [-> [M1 [H ->]]]]]].
    apply IH2 in H. destruct H as [w2 [rest [m' [-> [M2 [K ->]]]]]].
    exists (w1 ++ w2)%string, rest, m'.
    rewrite <- last_char_app, !append_assoc.
    repeat split; auto. now constructor.
  - revert lo k prev s m H.
    induction hi as [|hi IHhi]; intros lo k prev s m H.
    + rewrite run_repeat_0 in H. now apply matches_stop.
    + rewrite run_repeat_S in H.
      destruct (run r (run (Repeat (Nat.pred lo) hi r) k) prev s) as [m0|] eqn:E.
      * injection H as <-. apply IH in E.
        destruct E as [w1 [rest1 [m1 [-> [M1 [H ->]]]]]].
        apply IHhi in H. destruct H as [w2 [rest [m' [-> [M2 [K ->]]]]]].
        exists (w1 ++ w2)%string, rest, m'.
        rewrite <- last_char_app, !append_assoc.
        repeat split; auto. now constructor.
      * now apply matches_stop.
Qed.

(** Where a match exists after which the continuation succeeds, the
    matcher succeeds. *)
Lemma run_complete (r : regex) prev w rest :
  matches r prev w rest ->
  forall k : cont,
    k (last_char prev w) rest <> None ->
    run r k prev (w ++ rest)%string <> None.
Proof.
  induction 1 as [p c prev rest Hp | prev rest Hb
                 | r1 r2 prev w1 w2 rest _ IH1 _ IH2
                 | hi r prev rest
                 | lo hi r prev w1 w2 rest _ IH1 _ IH2]; intros k K.
  - simpl in *. rewrite Hp. now destruct (k (Some c) rest).
  - simpl in *. now rewrite Hb.
  - simpl. rewrite append_assoc. apply IH1, IH2. now rewrite last_char_app.
  - simpl append. simpl in K. destruct hi as [|hi].
    + now rewrite run_repeat_0.
    + rewrite run_repeat_S.
      now destruct (run r (run (Repeat (Nat.pred 0) hi r) k) prev rest).
  - rewrite run_repeat_S, append_assoc.
    destruct (run r (run (Repeat (Nat.pred lo) hi r) k) prev (w1 ++ w2 ++ rest))
      eqn:E; [discriminate|].
    exfalso. revert E. apply IH1, IH2. now rewrite last_char_app.
Qed.

(** [search_from] returns the match at the leftmost position that has one. *)
Lemma search_from_Some (r : regex) (s : string) :
  forall prev m,
    search_from r prev s = Some m ->
    exists pre rest,
      s = (pre ++ rest)%string /\
      run r accept (last_char prev pre) rest = Some m /\
      forall pre' rest',
        s = (pre' ++ rest')%string ->
        String.length pre' < String.length pre ->
        run r accept (last_char prev pre') rest' = None.
Proof.
  induction s as [|c s IH]; intros prev m H; simpl in H.
  - destruct (run r accept prev "") as [m0|] eqn:E; [|discriminate].
    injection H as <-. exists "", "". repeat split; auto.
    intros pre' rest' _ Hlt. simpl in Hlt. lia.
  - destruct (run r accept prev (String c s)) as [m0|] eqn:E.
    + injection H as <-. exists "", (String c s). repeat split; auto.
      intros pre' rest' _ Hlt. simpl in Hlt. lia.
    + apply IH in H. destruct H as [pre [rest [-> [Hrun Hmin]]]].
      exists (String c pre), rest. repeat split; auto.
      intros pre' rest' Hs Hlt. destruct pre' as [|c' pre']; simpl in *.
      * now subst rest'.
      * injection Hs as <- Hs. apply Hmin; [exact Hs | lia].
Qed.

Lemma search_from_None (r : regex) (s : string) :
  forall prev,
    search_from r prev s = None ->
    forall pre rest,
      s = (pre ++ rest)%string ->
      run r accept (last_char prev pre) rest = None.
Proof.
  induction s as [|c s IH]; intros prev H pre rest Hs; simpl in H.
  - destruct pre; [|discriminate]. simpl in *. subst rest.
    now destruct (run r accept prev "").
  - destruct (run r accept prev (String c s)) eqn:E; [discriminate|].
    destruct pre as [|c' pre]; simpl in *.
    + now subst rest.
    + injection Hs as <- Hs. now apply IH.
Qed.


Lemma is_digit_word (c : ascii) : PyStr.is_digit c = true -> PyStr.is_word c = true.
Proof.
  unfold PyStr.is_word. intros ->. rewrite orb_true_r. reflexivity.
Qed.

(** *** Groups of digits *)

Lemma matches_digits (hi : nat) :
  forall lo prev w rest,
    matches (Repeat lo hi digit) prev w rest ->
    all_digits w = true /\ lo <= String.length w <= hi.
Proof.
  induction hi as [|hi IH]; intros lo prev w rest H;
    inversion H as [| | |hi' r' prev' rest'
                   |lo' hi' r' prev' w1 w2 rest' M1 M2]; subst.
  - simpl. split; [reflexivity | lia].
  - simpl. split; [reflexivity | lia].
  - inversion M1 as [p c prev'' rest'' Hc| | | |]; subst.
    apply IH in M2. destruct M2 as [Hd Hlen]. simpl.
    rewrite Hc, Hd. split; [reflexivity | lia].
Qed.

Lemma digits_match (w : string) :
  forall lo hi prev rest,
    all_digits w = true -> lo <= String.length w <= hi ->
    matches (Repeat lo hi digit) prev w rest.
Proof.
  induction w as [|c w IH]; intros lo hi prev rest Hd Hlen; simpl in *.
  - assert (lo = 0) by lia. subst lo. constructor.
  - apply andb_true_iff in Hd. destruct Hd as [Hc Hd].
    destruct hi as [|hi]; [lia|].
    change (String c w) with (String c "" ++ w)%string.
    apply m_rep_more; [now constructor|].
    apply IH; [exact Hd | lia].
Qed.

Lemma octet_first (g rest : string) :
  octet g -> word_after (g ++ rest) = true.
Proof.
  intros [Hd Hlen]. destruct g as [|c g]; simpl in *; [lia|].
  apply andb_true_iff in Hd. now apply is_digit_word.
Qed.

Lemma digits_last (g : string) :
  forall prev,
    all_digits g = true -> g <> "" -> word_before (last_char prev g) = true.
Proof.
  induction g as [|c g IH]; intros prev Hd Hne; [now elim Hne|].
  simpl in *. apply andb_true_iff in Hd. destruct Hd as [Hc Hd].
  destruct g as [|c' g].
  - simpl. now apply is_digit_word.
  - apply IH; [exact Hd | discriminate].
Qed.

Lemma octet_nonempty (g : string) : octet g -> g <> "".
Proof. intros [_ H] ->. simpl in H. lia. Qed.

(** *** The pattern *)

Lemma matches_group prev w rest :
  matches group prev w rest <-> exists g, w = (g ++ ".")%string /\ octet g.
Proof.
  split.
  - intros H. inversion H as [| |r1 r2 prev' w1 w2 rest' M1 M2| |]; subst.
    apply matches_digits in M1.
    inversion M2 as [p c prev'' rest'' Hc| | | |]; subst.
    apply Ascii.eqb_eq in Hc. subst c. now exists w1.
  - intros [g [-> [Hd Hlen]]]. apply m_cat.
    + now apply digits_match.
    + constructor. reflexivity.
Qed.

Lemma matches_three_groups prev w rest :
  matches (Repeat 3 3 group) prev w rest <->
  exists a b c,
    w = (a ++ "." ++ b ++ "." ++ c ++ ".")%string /\
    octet a /\ octet b /\ octet c.
Proof.
  split.
  - intros H.
    inversion H as [| | | |lo hi r p1 w1 v1 rest1 A1 B1]; subst; clear H.
    inversion B1 as [| | | |lo hi r p2 w2 v2 rest2 A2 B2]; subst; clear B1.
    inversion B2 as [| | | |lo hi r p3 w3 v3 rest3 A3 B3]; subst; clear B2.
    inversion B3; subst; clear B3.
    apply matches_group in A1, A2, A3.
    destruct A1 as [a [-> Ha]], A2 as [b [-> Hb]], A3 as [c [-> Hc]].
    exists a, b, c. rewrite append_nil_r, !append_assoc. auto.
  - intros [a [b [c [-> [Ha [Hb Hc]]]]]].
    replace (a ++ "." ++ b ++ "." ++ c ++ ".")%string
      with ((a ++ ".") ++ (b ++ ".") ++ (c ++ ".") ++ "")%string
      by now rewrite append_nil_r, !append_assoc.
    apply (m_rep_more 3 2); [apply matches_group; now exists a|].
    apply (m_rep_more 2 1); [apply matches_group; now exists b|].
    apply (m_rep_more 1 0); [apply matches_group; now exists c|].
    constructor.
Qed.

(** The pattern matches the dotted quads that have no word character on
    either side. *)
Lemma matches_ip_pattern prev w rest :
  matches ip_pattern prev w rest <->
  dotted_quad w /\ word_before prev = false /\ word_after rest = false.
Proof.
  unfold ip_pattern. split.
  - intros H.
    inversion H as [| |r1 r2 p0 w0 w' rest0 M0 M'| |]; subst; clear H.
    inversion M0 as [|p1 rest1 Hb0| | |]; subst; clear M0.
    inversion M' as [| |r1 r2 p1 u v rest1 Mu Mv| |]; subst; clear M'.
    inversion Mv as [| |r1 r2 p2 d e rest2 Md Me| |]; subst; clear Mv.
    inversion Me as [|p3 rest3 Hb1| | |]; subst; clear Me.
    apply matches_three_groups in Mu.
    destruct Mu as [a [b [c [-> [Ha [Hb Hc]]]]]].
    apply matches_digits in Md.
    assert (Hd : octet d) by exact Md.
    simpl last_char in *. simpl append in Hb0.
    rewrite append_nil_r in *. split; [|split].
    + exists a, b, c, d. rewrite !append_assoc. auto.
    + unfold at_boundary in Hb0.
      rewrite !append_assoc, (octet_first a _ Ha) in Hb0.
      now destruct (word_before prev).
    + unfold at_boundary in Hb1.
      rewrite (digits_last d _ (proj1 Hd) (octet_nonempty d Hd)) in Hb1.
      now destruct (word_after rest).
  - intros [[a [b [c [d [-> [Ha [Hb [Hc Hd]]]]]]]] [Hp Hr]].
    replace (a ++ "." ++ b ++ "." ++ c ++ "." ++ d)%string
      with ("" ++ (a ++ "." ++ b ++ "." ++ c ++ ".") ++ d ++ "")%string
      by (change ("" ++ ?x)%string with x;
          now rewrite append_nil_r, !append_assoc).
    apply m_cat.
    + constructor. unfold at_boundary. simpl append.
      rewrite !append_assoc, (octet_first a _ Ha), Hp. reflexivity.
    + apply m_cat; [apply matches_three_groups; now exists a, b, c|].
      apply m_cat; [apply digits_match; apply Hd|].
      constructor. unfold at_boundary.
      rewrite (digits_last d _ (proj1 Hd) (octet_nonempty d Hd)), Hr.
      reflexivity.
Qed.


(** *** One match per position *)

Lemma digit_run_unique (g : string) :
  forall g' x x',
    all_digits g = true -> all_digits g' = true ->
    (g ++ x)%string = (g' ++ x')%string ->
    (forall c s, x = String c s -> PyStr.is_digit c = false) ->
    (forall c s, x' = String c s -> PyStr.is_digit c = false) ->
    g = g' /\ x = x'.
Proof.
  induction g as [|c g IH]; intros [|c' g'] x x' Hg Hg' E Hx Hx'; simpl in *.
  - auto.
  - apply andb_true_iff in Hg'. destruct Hg' as [Hc' _].
    rewrite (Hx c' _ E) in Hc'. discriminate.
  - apply andb_true_iff in Hg. destruct Hg as [Hc _].
    rewrite (Hx' c _ (eq_sym E)) in Hc. discriminate.
  - apply andb_true_iff in Hg, Hg'. injection E as <- E.
    destruct (IH g' x x') as [-> ->]; tauto.
Qed.

Lemma no_digit_after_dot (s c : string) (a : ascii) :
  String "." s = String a c -> PyStr.is_digit a = false.
Proof. intros H. now injection H as <- _. Qed.

Lemma no_digit_no_word (post : string) :
  word_after post = false ->
  forall c s, post = String c s -> PyStr.is_digit c = false.
Proof.
  intros H c s ->. simpl in H. destruct (PyStr.is_digit c) eqn:E; [|reflexivity].
  apply is_digit_word in E. congruence.
Qed.

Lemma dotted_quad_unique (ip ip' post post' : string) :
  dotted_quad ip -> dotted_quad ip' ->
  (ip ++ post)%string = (ip' ++ post')%string ->
  word_after post = false -> word_after post' = false ->
  ip = ip'.
Proof.
  intros [a [b [c [d [-> [[Ha _] [[Hb _] [[Hc _] [Hd _]]]]]]]]]
         [a' [b' [c' [d' [-> [[Ha' _] [[Hb' _] [[Hc' _] [Hd' _]]]]]]]]] E Hp Hp'.
  rewrite !append_assoc in E. simpl in E.
  apply digit_run_unique in E; eauto using no_digit_after_dot.
  destruct E as [<- E]. simpl in E. injection E as E.
  apply digit_run_unique in E; eauto using no_digit_after_dot.
  destruct E as [<- E]. simpl in E. injection E as E.
  apply digit_run_unique in E; eauto using no_digit_after_dot.
  destruct E as [<- E]. simpl in E. injection E as E.
  apply digit_run_unique in E; eauto using no_digit_no_word.
  now destruct E as [<- _].
Qed.

Lemma same_length_prefix (pre : string) :
  forall pre' x x',
    (pre ++ x)%string = (pre' ++ x')%string ->
    String.length pre = String.length pre' ->
    pre = pre' /\ x = x'.
Proof.
  induction pre as [|c pre IH]; intros [|c' pre'] x x' E L; simpl in *;
    try discriminate; [auto|].
  injection E as <- E. injection L as L.
  destruct (IH pre' x x' E L) as [-> ->]. auto.
Qed.

(** *** The search *)

Lemma extract_ip_Some (message ip : string) :
  extract_ip message = Some ip ->
  exists pre post,
    message = (pre ++ ip ++ post)%string /\
    matches ip_pattern (last_char None pre) ip post /\
    forall pre' w post',
      message = (pre' ++ w ++ post')%string ->
      matches ip_pattern (last_char None pre') w post' ->
      String.length pre <= String.length pre'.
Proof.
  intros H. apply search_from_Some in H.
  destruct H as [pre [rest [-> [Hrun Hmin]]]].
  apply run_sound in Hrun.
  destruct Hrun as [w [post [m' [-> [M [K ->]]]]]].
  injection K as <-. rewrite append_nil_r.
  exists pre, post. repeat split; auto.
  intros pre' w' post' E M'.
  destruct (Nat.lt_ge_cases (String.length pre') (String.length pre)) as [L|L];
    [|exact L].
  exfalso. apply (run_complete _ _ _ _ M' accept); [discriminate|].
  now apply Hmin.
Qed.

Lemma extract_ip_None (message : string) :
  extract_ip message = None ->
  forall pre w post,
    message = (pre ++ w ++ post)%string ->
    ~ matches ip_pattern (last_char None pre) w post.
Proof.
  intros H pre w post E M.
  apply (run_complete _ _ _ _ M accept); [discriminate|].
  exact (search_from_None _ _ _ H pre (w ++ post)%string E).
Qed.

End ReFacts.

(** ** IP extraction *)

Lemma bounded_quad_matches (pre ip post : string) :
  matches ip_pattern (last_char None pre) ip post <->
  dotted_quad ip /\ word_bounded pre post.
Proof. apply ReFacts.matches_ip_pattern. Qed.

Lemma extract_ip_Some_bounded (msg ip : string) :
  extract_ip msg = Some ip ->
  exists pre post,
    msg = (pre ++ ip ++ post)%string /\ dotted_quad ip /\
    word_bounded pre post /\
    forall pre' ip' post',
      msg = (pre' ++ ip' ++ post')%string ->
      dotted_quad ip' -> word_bounded pre' post' ->
      String.length pre <= String.length pre'.
Proof.
  intros H. apply ReFacts.extract_ip_Some in H.
  destruct H as [pre [post [E [M Hmin]]]].
  apply bounded_quad_matches in M. destruct M as [Q B].
  exists pre, post. repeat split; auto; try apply B.
  intros pre' ip' post' E' Q' B'. apply (Hmin pre' ip' post' E').
  now apply bounded_quad_matches.
Qed.

Lemma extract_ip_None_bounded (msg : string) :
  extract_ip msg = None ->
  forall pre ip post,
    msg = (pre ++ ip ++ post)%string -> dotted_quad ip ->
    ~ word_bounded pre post.
Proof.
  intros H pre ip post E Q B.
  apply (ReFacts.extract_ip_None msg H pre ip post E).
  now apply bounded_quad_matches.
Qed.

(** The [ip] cell of a row is what [extract_ip] finds in its message. *)
Lemma row_ip_of_record (P : DatetimeParser) (new : list FailureRecord)
  (row : Row) :
  In row (with_ip_datetime P new) ->
  row_ip row = match message (row_record row) with
               | Some m => extract_ip m
               | None => None
               end.
Proof.
  revert row. apply map_ext_in_iff.
  rewrite rows_ips. unfold ip_column.
  rewrite <- (rows_records P new) at 1. now rewrite map_map.
Qed.

(** C8, as stated, fails: a dotted quad next to a letter or a digit is
    passed over.  In the first message a substring of four groups of 1 to
    3 digits exists and nothing is returned; in the second the quad
    returned is not the first one of the message. *)
Lemma extract_ip_passes_over_dotted_quads :
  (extract_ip "1234.5.6.7" = None /\
   "1234.5.6.7" = ("1" ++ "234.5.6.7" ++ "")%string /\
   dotted_quad "234.5.6.7") /\
  (extract_ip "v1.2.3.4 from 10.0.0.1" = Some "10.0.0.1" /\
   "v1.2.3.4 from 10.0.0.1" = ("v" ++ "1.2.3.4" ++ " from 10.0.0.1")%string /\
   dotted_quad "1.2.3.4").
Proof.
  split; (split; [reflexivity|]; split; [reflexivity|]).
  - exists "234", "5", "6", "7". repeat split; simpl; lia.
  - exists "1", "2", "3", "4". repeat split; simpl; lia.
Qed.

(** C8, amended: [extract_ip] returns the leftmost substring that is a
    dotted quad (four groups of 1 to 3 digits separated by periods, no
    range check) with no letter, digit or underscore right before or right
    after it, and [None] exactly when the message has no such substring;
    a row whose message yields [None] takes no part in the grouping. *)
Theorem extract_ip_leftmost_delimited_quad :
  forall msg : string,
    (forall ip,
        extract_ip msg = Some ip <->
        exists pre post,
          msg = (pre ++ ip ++ post)%string /\ dotted_quad ip /\
          word_bounded pre post /\
          forall pre' ip' post',
            msg = (pre' ++ ip' ++ post')%string ->
            dotted_quad ip' -> word_bounded pre' post' ->
            String.length pre <= String.length pre') /\
    (extract_ip msg = None <->
     forall pre ip post,
       msg = (pre ++ ip ++ post)%string -> dotted_quad ip ->
       ~ word_bounded pre post) /\
    (forall (P : DatetimeParser) (new : list FailureRecord)
            (l1 l2 : list Row) (row : Row),
        with_ip_datetime P new = l1 ++ row :: l2 ->
        message (row_record row) = Some msg ->
        extract_ip msg = None ->
        row_ip row = None /\
        dropna (with_ip_datetime P new) = dropna (l1 ++ l2) /\
        detect P new = brute_force_ips (ip_attempts (dropna (l1 ++ l2)))).
Proof.
  intros msg.
  assert (HNone : extract_ip msg = None <->
                  forall pre ip post,
                    msg = (pre ++ ip ++ post)%string -> dotted_quad ip ->
                    ~ word_bounded pre post).
  { split; [apply extract_ip_None_bounded|].
    intros H. destruct (extract_ip msg) as [ip|] eqn:E; [|reflexivity].
    destruct (extract_ip_Some_bounded msg ip E) as [pre [post [Hs [Q [B _]]]]].
    elim (H pre ip post Hs Q B). }
  split; [|split; [exact HNone|]].
  - intros ip. split; [apply extract_ip_Some_bounded|].
    intros [pre [post [Hs [Q [B Hmin]]]]].
    destruct (extract_ip msg) as [ip0|] eqn:E.
    + destruct (extract_ip_Some_bounded msg ip0 E)
        as [pre0 [post0 [Hs0 [Q0 [B0 Hmin0]]]]].
      assert (L : String.length pre = String.length pre0).
      { apply Nat.le_antisymm; [eapply Hmin | eapply Hmin0]; eassumption. }
      rewrite Hs0 in Hs.
      destruct (ReFacts.same_length_prefix _ _ _ _ Hs (eq_sym L)) as [_ Hs'].
      f_equal. apply (ReFacts.dotted_quad_unique ip0 ip post0 post Q0 Q Hs');
        [apply B0 | apply B].
    + apply proj1 in HNone. elim (HNone eq_refl pre ip post Hs Q B).
  - intros P new l1 l2 row Hs Hm Hnone.
    assert (Hip : row_ip row = None).
    { rewrite (row_ip_of_record P new row), Hm; [exact Hnone|].
      rewrite Hs. apply in_or_app. right. now left. }
    assert (Hc : complete row = None) by (apply complete_None; tauto).
    split; [exact Hip|]. unfold detect.
    rewrite Hs, (dropna_incomplete l1 l2 row Hc). auto.
Qed.

(** ** The examples of the specification *)

Example ip_of_login_failure :
  extract_ip "login failure from 192.168.1.50 port 22" = Some "192.168.1.50".
Proof. reflexivity. Qed.

(** The word class is Python's: an accented letter (233) right before the
    quad hides it, a multiplication sign (215) does not. *)
Example quad_after_a_latin1_letter :
  extract_ip (String "233"%char "1.2.3.4") = None /\
  extract_ip (String "215"%char "1.2.3.4") = Some "1.2.3.4".
Proof. split; reflexivity. Qed.

Example no_ip_no_group :
  extract_ip "login failure for user admin via console" = None /\
  detect Iso.parser
    (failed_logins
       [mkLogEntry (Some "2024-01-01 10:00:00")
          (Some "login failure for user admin via console") (Some "system");
        mkLogEntry (Some "2024-01-01 10:00:01")
          (Some "login failure for user admin via console") (Some "system")])
  = [].
Proof. split; reflexivity. Qed.

Example invalidated_is_a_failure :
  is_failure (mkLogEntry (Some "t") (Some "Session INVALIDATED") None) = true.
Proof. reflexivity. Qed.

Example diff_yields_the_new_one :
  new_entries
    (failed_logins
       [mkLogEntry (Some "t1") (Some "failed login from 1.2.3.4") None;
        mkLogEntry (Some "t2") (Some "failed login from 1.2.3.4") None])
    [mkFailureRecord (Some "t1") (Some "failed login from 1.2.3.4") None
       "t1|failed login from 1.2.3.4"] =
  Ok [mkFailureRecord (Some "t2") (Some "failed login from 1.2.3.4") None
        "t2|failed login from 1.2.3.4"].
Proof. reflexivity. Qed.

Example batch_duplicates_both_kept :
  new_entries (failed_logins duplicate_batch) [] =
  Ok [record_of repeated_failure; record_of repeated_failure] /\
  new_entries (failed_logins duplicate_batch) [record_of repeated_failure] =
  Ok [].
Proof. split; reflexivity. Qed.

Example span_of_five_minutes_flagged :
  detect Iso.parser (failed_logins (three_attempts "2024-01-01 10:05:00")) =
  ["10.0.0.5"].
Proof. reflexivity. Qed.

Example span_over_five_minutes_not_flagged :
  detect Iso.parser (failed_logins (three_attempts "2024-01-01 10:05:01")) = [].
Proof. reflexivity. Qed.

(** * Further properties of the code *)

(** ** Configuration and connection *)

(** X1: [connect_routeros] builds the pool exactly when the configuration
    has the four keys, with their values and plain-text login; otherwise it
    raises [KeyError] for the first key, in the order host, username,
    password, port, that the configuration lacks. *)
Theorem connect_routeros_keys :
  forall config : Config,
    (forall connection,
        connect_routeros config = Ok connection <->
        config "host" = Some (pool_host connection) /\
        config "username" = Some (pool_username connection) /\
        config "password" = Some (pool_password connection) /\
        config "port" = Some (pool_port connection) /\
        plaintext_login connection = true) /\
    (forall e,
        connect_routeros config = Raise e <->
        exists present key rest,
          ["host"; "username"; "password"; "port"] = present ++ key :: rest /\
          e = KeyError key /\ config key = None /\
          forall k, In k present -> config k <> None).
Proof.
  intros config. unfold connect_routeros, getitem, bind. split.
  - intros [h u p q b]. simpl.
    destruct (config "host") as [h'|]; [|split; [discriminate | intros [H _]; discriminate]].
    destruct (config "username") as [u'|];
      [|split; [discriminate | intros [_ [H _]]; discriminate]].
    destruct (config "password") as [p'|];
      [|split; [discriminate | intros [_ [_ [H _]]]; discriminate]].
    destruct (config "port") as [q'|];
      [|split; [discriminate | intros [_ [_ [_ [H _]]]]; discriminate]].
    split.
    + intros H. injection H as -> -> -> -> <-. auto.
    + intros [H1 [H2 [H3 [H4 ->]]]]. congruence.
  - intros e. split.
    + intros H.
      destruct (config "host") as [h|] eqn:Eh.
      2:{ exists [], "host", ["username"; "password"; "port"].
          injection H as <-. repeat split; auto;
            try (intros k Hk; simpl in Hk; intuition (subst; congruence)). }
      destruct (config "username") as [u|] eqn:Eu.
      2:{ exists ["host"], "username", ["password"; "port"].
          injection H as <-. repeat split; auto;
            try (intros k Hk; simpl in Hk; intuition (subst; congruence)). }
      destruct (config "password") as [p|] eqn:Ep.
      2:{ exists ["host"; "username"], "password", ["port"].
          injection H as <-. repeat split; auto;
            try (intros k Hk; simpl in Hk; intuition (subst; congruence)). }
      destruct (config "port") as [q|] eqn:Eq; [discriminate|].
      exists ["host"; "username"; "password"], "port", [].
      injection H as <-. repeat split; auto;
        try (intros k Hk; simpl in Hk; intuition (subst; congruence)).
    + intros [present [key [rest [Hs [-> [Hk Hp]]]]]].
      destruct present as [|k1 present]; simpl in Hs.
      { injection Hs as <- _. now rewrite Hk. }
      injection Hs as <- Hs.
      destruct (config "host") eqn:Eh;
        [|elim (Hp "host" (or_introl eq_refl) Eh)].
      destruct present as [|k2 present]; simpl in Hs.
      { injection Hs as <- _. now rewrite Hk. }
      injection Hs as <- Hs.
      destruct (config "username") eqn:Eu;
        [|elim (Hp "username" (or_intror (or_introl eq_refl)) Eu)].
      destruct present as [|k3 present]; simpl in Hs.
      { injection Hs as <- _. now rewrite Hk. }
      injection Hs as <- Hs.
      destruct (config "password") eqn:Ep;
        [|elim (Hp "password" (or_intror (or_intror (or_introl eq_refl))) Ep)].
      destruct present as [|k4 present]; simpl in Hs.
      { injection Hs as <- _. now rewrite Hk. }
      injection Hs as _ Hs. now destruct present.
Qed.

(** ** The run around the processing *)

Lemma process_no_disconnect (P : DatetimeParser) (clock : Clock)
  (log_entries : list LogEntry) (disk : fs) :
  ~ In Disconnect (process P clock log_entries disk).
Proof.
  unfold process.
  destruct (read_ledger disk) as [existing|e];
    [|intros [H|[]]; discriminate].
  destruct (new_entries (failed_logins log_entries) existing) as [new|e];
    [|intros [H|[]]; discriminate].
  destruct new as [|r new]; [intros [H|[]]; discriminate|].
  unfold save_results, to_csv, write_report, write_alert.
  destruct (detect P (r :: new)); simpl; intuition discriminate.
Qed.

Lemma perform_Io (platform : string) (viewer : Viewer) (a b : action) :
  In (Io b) (perform platform viewer a) -> a = b.
Proof.
  destruct a; simpl; try (intros [H|[]]; now injection H).
  unfold open_file. destruct (viewer _); simpl; intuition discriminate.
Qed.

Lemma flat_map_perform_Io (platform : string) (viewer : Viewer)
  (acts : list action) (b : action) :
  In (Io b) (flat_map (perform platform viewer) acts) -> In b acts.
Proof.
  intros H. apply in_flat_map in H. destruct H as [a [Ha Hb]].
  now rewrite <- (perform_Io _ _ _ _ Hb).
Qed.

Lemma file_actions_app (e1 e2 : list event) :
  file_actions (e1 ++ e2) = file_actions e1 ++ file_actions e2.
Proof.
  induction e1 as [|ev e1 IH]; simpl; [reflexivity|].
  destruct ev as [a| | |]; try exact IH.
  destruct (is_write a); simpl; now rewrite IH.
Qed.

Lemma file_actions_perform (platform : string) (viewer : Viewer)
  (acts : list action) :
  file_actions (flat_map (perform platform viewer) acts) = filter is_write acts.
Proof.
  induction acts as [|a acts IH]; simpl; [reflexivity|].
  rewrite file_actions_app, IH.
  destruct a; simpl; try reflexivity.
  unfold open_file. now destruct (viewer _).
Qed.

Lemma exec_all_writes (acts : list action) :
  forall disk, exec_all (filter is_write acts) disk = exec_all acts disk.
Proof.
  unfold exec_all. induction acts as [|a acts IH]; intros disk; simpl;
    [reflexivity|].
  destruct a; simpl; apply IH.
Qed.

Section Program.

Variable P : DatetimeParser.
Variable clock : Clock.
Variable f : config_file.
Variable router : PoolArgs -> outcome (list LogEntry).
Variable disk : fs.

(** The file actions of the program are those of the processing of the
    entries the router returned. *)
Lemma program_file_actions (platform : string) (viewer : Viewer) :
  file_actions (program P clock platform viewer f router disk) =
  match load_config f with
  | Failed _ => []
  | Done config =>
      match connect_routeros config with
      | Raise _ => []
      | Ok connection =>
          match router connection with
          | Failed _ => []
          | Done log_entries =>
              filter is_write (main P clock log_entries disk)
          end
      end
  end.
Proof.
  unfold program. simpl.
  destruct (load_config f) as [config|e]; [|reflexivity].
  destruct (connect_routeros config) as [connection|e]; [|reflexivity].
  destruct (router connection) as [log_entries|e]; [|reflexivity].
  simpl. rewrite file_actions_app, file_actions_perform. simpl.
  unfold main. simpl. rewrite filter_app. reflexivity.
Qed.

End Program.

(** X2: the program disconnects exactly when the configuration was loaded
    and has the four keys, that is when the connection object was built;
    it then disconnects once, as its last step, whether fetching or
    processing succeeded or not. *)
Theorem disconnect_iff_connection_built :
  forall (P : DatetimeParser) (clock : Clock) (platform : string)
         (viewer : Viewer) (f : config_file)
         (router : PoolArgs -> outcome (list LogEntry)) (disk : fs),
    let events := program P clock platform viewer f router disk in
    (In (Io Disconnect) events <->
     exists config connection,
       f = JsonDict config /\ connect_routeros config = Ok connection) /\
    ((exists config connection,
         f = JsonDict config /\ connect_routeros config = Ok connection) ->
     exists before,
       events = before ++ [Io Disconnect] /\ ~ In (Io Disconnect) before).
Proof.
  intros P clock platform viewer f router disk events.
  assert (Built :
    (exists config connection,
        f = JsonDict config /\ connect_routeros config = Ok connection) ->
    exists before,
      events = before ++ [Io Disconnect] /\ ~ In (Io Disconnect) before).
  { intros [config [connection [-> C]]]. unfold events, program. simpl.
    rewrite C. destruct (router connection) as [log_entries|e].
    - eexists (_ :: _ :: _). split; [reflexivity|].
      intros [H|[H|H]]; try discriminate.
      apply flat_map_perform_Io in H.
      now apply process_no_disconnect in H.
    - exists [Io (Print Banner); Failure e]. split; [reflexivity|].
      intros [H|[H|[]]]; discriminate.
  }
  split; [split|exact Built].
  - unfold events, program. destruct f as [| |config]; simpl.
    + intros [H|[H|[]]]; discriminate.
    + intros [H|[H|[]]]; discriminate.
    + destruct (connect_routeros config) as [connection|e] eqn:C.
      * intros _. exists config, connection. split; [reflexivity | exact C].
      * intros [H|[H|[]]]; discriminate.
  - intros H. destruct (Built H) as [before [-> _]].
    apply in_or_app. right. now left.
Qed.

(** X3: the program touches a file only when the configuration was
    loaded, the connection built and the log entries fetched; short of
    that it opens and stores nothing. *)
Theorem no_file_action_before_processing :
  forall (P : DatetimeParser) (clock : Clock) (platform : string)
         (viewer : Viewer) (f : config_file)
         (router : PoolArgs -> outcome (list LogEntry)) (disk : fs),
    file_actions (program P clock platform viewer f router disk) <> [] ->
    exists config connection log_entries,
      f = JsonDict config /\
      connect_routeros config = Ok connection /\
      router connection = Done log_entries /\
      file_actions (program P clock platform viewer f router disk) =
      filter is_write (main P clock log_entries disk).
Proof.
  intros P clock platform viewer f router disk.
  rewrite program_file_actions.
  destruct f as [| |config]; simpl; try (intros H; now elim H).
  destruct (connect_routeros config) as [connection|e] eqn:C;
    [|intros H; now elim H].
  destruct (router connection) as [log_entries|e] eqn:R;
    [|intros H; now elim H].
  intros _. exists config, connection, log_entries. repeat split; auto.
Qed.

(** X4: the platform and the viewer have no say in what is written: on
    any two platforms, and whether or not the viewer can be launched, the
    program performs the same file actions, and when the entries are
    fetched it leaves the disk that the processing leaves. *)
Theorem viewer_failure_not_fatal :
  forall (P : DatetimeParser) (clock : Clock) (f : config_file)
         (router : PoolArgs -> outcome (list LogEntry)) (disk : fs)
         (platform platform' : string) (viewer viewer' : Viewer),
    file_actions (program P clock platform viewer f router disk) =
    file_actions (program P clock platform' viewer' f router disk) /\
    (forall config connection log_entries,
        f = JsonDict config ->
        connect_routeros config = Ok connection ->
        router connection = Done log_entries ->
        exec_all
          (file_actions (program P clock platform viewer f router disk)) disk =
        exec_all (main P clock log_entries disk) disk).
Proof.
  intros P clock f router disk platform platform' viewer viewer'.
  rewrite !program_file_actions. split; [reflexivity|].
  intros config connection log_entries -> C R. simpl. rewrite C, R.
  apply exec_all_writes.
Qed.

Lemma no_file_action_before_processing_witness :
  exists config connection log_entries,
    JsonDict sample_config = JsonDict config /\
    connect_routeros config = Ok connection /\
    sample_router connection = Done log_entries /\
    file_actions
      (program Iso.parser clock0 "Linux" no_viewer (JsonDict sample_config)
         sample_router no_files) =
    filter is_write (main Iso.parser clock0 log_entries no_files).
Proof.
  apply (no_file_action_before_processing Iso.parser clock0 "Linux" no_viewer
           (JsonDict sample_config) sample_router no_files).
  vm_compute. discriminate.
Defined.

(** ** The ledger across a run *)

(** X5: a run writes the ledger from the frame it read, not from what
    was written before.  With at least one new entry the ledger file
    becomes the rows read back from the old file, in their order,
    followed by the new entries, which are the failures of the batch
    whose id is not among the ids read back, in batch order; with no new
    entry the file is left as it is. *)
Theorem ledger_written_from_frame_read :
  forall (reread : Reread) (P : DatetimeParser) (clock : Clock)
         (log_entries : list LogEntry) (disk : fs)
         (rows : list FailureRecord),
    disk LOG_CSV = Some (Csv rows) ->
    let new :=
      filter (fun r => negb (isin (id r) (map id (reread rows))))
             (failed_logins log_entries) in
    (forall r,
        In r new <->
        In r (failed_logins log_entries) /\
        ~ In (id r) (map id (reread rows))) /\
    exec_all (main P clock log_entries (as_read reread disk)) disk LOG_CSV =
    match new with
    | [] => Some (Csv rows)
    | _ :: _ => Some (Csv (reread rows ++ new))
    end.
Proof.
  intros reread P clock log_entries disk rows H new. split.
  - intros r. unfold new.
    rewrite filter_In, negb_true_iff, <- not_true_iff_false, isin_iff.
    reflexivity.
  - assert (R : read_ledger (as_read reread disk) = Ok (reread rows)).
    { unfold read_ledger, as_read. now rewrite String.eqb_refl, H. }
    rewrite main_ledger_on, R. unfold new.
    destruct (failed_logins log_entries) as [|c cs]; [exact H|].
    rewrite new_entries_cons.
    destruct (filter _ (c :: cs)); [exact H | reflexivity].
Qed.

Lemma ledger_written_from_frame_read_witness :
  let disk := fs_update LOG_CSV (Csv [record_of cr_failure]) no_files in
  let new :=
    filter (fun r => negb (isin (id r)
                             (map id (Posix.reread [record_of cr_failure]))))
           (failed_logins [plain_failure; cr_failure]) in
  (forall r,
      In r new <->
      In r (failed_logins [plain_failure; cr_failure]) /\
      ~ In (id r) (map id (Posix.reread [record_of cr_failure]))) /\
  exec_all (main Iso.parser clock0 [plain_failure; cr_failure]
                 (as_read Posix.reread disk)) disk LOG_CSV =
  match new with
  | [] => Some (Csv [record_of cr_failure])
  | _ :: _ => Some (Csv (Posix.reread [record_of cr_failure] ++ new))
  end.
Proof.
  intros disk.
  apply (ledger_written_from_frame_read Posix.reread Iso.parser clock0
           [plain_failure; cr_failure] disk [record_of cr_failure]).
  reflexivity.
Defined.

(** X7: with no ledger file the run does not fail on the missing file: it
    takes the ledger as empty, and a batch with a failure leaves a ledger
    and a report that hold every failure of the batch, in order. *)
Theorem first_run_logs_every_failure :
  forall (P : DatetimeParser) (clock : Clock) (log_entries : list LogEntry)
         (disk : fs),
    disk LOG_CSV = None ->
    failed_logins log_entries <> [] ->
    read_ledger disk = Ok [] /\
    read_ledger (exec_all (main P clock log_entries disk) disk) =
    Ok (failed_logins log_entries) /\
    exec_all (main P clock log_entries disk) disk (report_file clock) =
    Some (ReportText (report_now clock) (failed_logins log_entries)).
Proof.
  intros P clock log_entries disk Hno Hne.
  assert (R : read_ledger disk = Ok []) by (unfold read_ledger; now rewrite Hno).
  assert (N : new_entries (failed_logins log_entries) [] =
              Ok (failed_logins log_entries)).
  { destruct (failed_logins log_entries) as [|c cs]; [now elim Hne|].
    rewrite new_entries_cons. f_equal. simpl map.
    apply forallb_filter_id. apply forallb_forall. reflexivity. }
  split; [exact R|]. split.
  - unfold read_ledger. rewrite main_ledger, R, N.
    destruct (failed_logins log_entries); [now elim Hne | reflexivity].
  - now apply (main_report P clock log_entries disk []).
Qed.

Lemma first_run_logs_every_failure_witness :
  read_ledger no_files = Ok [] /\
  read_ledger (exec_all (main Iso.parser clock0 duplicate_batch no_files)
                        no_files) =
  Ok (failed_logins duplicate_batch) /\
  exec_all (main Iso.parser clock0 duplicate_batch no_files) no_files
           (report_file clock0) =
  Some (ReportText (report_now clock0) (failed_logins duplicate_batch)).
Proof.
  apply (first_run_logs_every_failure Iso.parser clock0 duplicate_batch
           no_files).
  - reflexivity.
  - vm_compute. discriminate.
Defined.

(** ** The files of a run *)

(** An action that leaves the file at [p] alone. *)
Lemma exec_all_elsewhere (p : string) (acts : list action) :
  Forall (fun a => match a with
                   | OpenW q | Store q _ => q <> p
                   | Print _ | OpenFile _ | Disconnect => True
                   end) acts ->
  forall disk, exec_all acts disk p = disk p.
Proof.
  unfold exec_all. induction 1 as [|a acts Ha _ IH]; intros disk; simpl;
    [reflexivity|].
  rewrite IH. destruct a; simpl; try reflexivity;
    apply fs_update_other; congruence.
Qed.

(** X8: a run opens and stores no file other than the ledger, its report
    and its alert: every other path holds after the run what it held
    before. *)
Theorem run_touches_three_files_only :
  forall (P : DatetimeParser) (clock : Clock) (log_entries : list LogEntry)
         (disk : fs) (p : string),
    p <> LOG_CSV -> p <> report_file clock -> p <> alert_file clock ->
    exec_all (main P clock log_entries disk) disk p = disk p.
Proof.
  intros P clock log_entries disk p H1 H2 H3.
  apply exec_all_elsewhere. unfold main, process.
  destruct (read_ledger disk) as [existing|e]; [|repeat constructor].
  destruct (new_entries (failed_logins log_entries) existing) as [new|e];
    [|repeat constructor].
  destruct new as [|r new]; [repeat constructor|].
  unfold save_results, to_csv, write_report, write_alert.
  destruct (detect P (r :: new)); simpl; repeat constructor; congruence.
Qed.

Lemma run_touches_three_files_only_witness :
  exec_all (main Iso.parser clock0 mixed_batch one_record_disk)
           one_record_disk CONFIG_FILE = one_record_disk CONFIG_FILE.
Proof.
  apply (run_touches_three_files_only Iso.parser clock0 mixed_batch
           one_record_disk CONFIG_FILE); vm_compute; discriminate.
Defined.

(** X9: a run with new entries writes the alert file exactly when an IP
    is flagged; the alert then holds the flagged IPs in their order, with
    the threshold 2 and the window 5, and otherwise the path of the alert
    is left as it was. *)
Theorem alert_iff_flagged :
  forall (P : DatetimeParser) (clock : Clock) (log_entries : list LogEntry)
         (disk : fs) (existing new : list FailureRecord),
    read_ledger disk = Ok existing ->
    new_entries (failed_logins log_entries) existing = Ok new ->
    new <> [] ->
    exec_all (main P clock log_entries disk) disk (alert_file clock) =
    match detect P new with
    | [] => disk (alert_file clock)
    | ips => Some (AlertText (alert_now clock) 2 5 ips)
    end.
Proof.
  intros P clock log_entries disk existing new R N Hne.
  rewrite main_exec. unfold process. rewrite R, N.
  destruct new as [|r new]; [now elim Hne|].
  unfold save_results. rewrite !exec_all_app.
  destruct (detect P (r :: new)) as [|ip ips] eqn:D.
  - simpl write_alert. unfold write_report, to_csv, exec_all. simpl.
    rewrite !fs_update_other; auto using alert_file_not_report,
      alert_file_not_ledger.
  - unfold write_alert, exec_all. simpl. apply fs_update_same.
Qed.

Lemma alert_iff_flagged_witness :
  exec_all (main Iso.parser clock0 mixed_batch no_files) no_files
           (alert_file clock0) =
  match detect Iso.parser (failed_logins mixed_batch) with
  | [] => no_files (alert_file clock0)
  | ips => Some (AlertText (alert_now clock0) 2 5 ips)
  end.
Proof.
  apply (alert_iff_flagged Iso.parser clock0 mixed_batch no_files []
           (failed_logins mixed_batch)).
  - reflexivity.
  - reflexivity.
  - vm_compute. discriminate.
Defined.

(** X10: a run writes files exactly when the diff returns at least one
    new entry; then it writes the ledger first and the report second, and
    otherwise (unreadable ledger, no candidate, nothing new) it writes
    nothing at all. *)
Theorem writes_iff_new_entries :
  forall (P : DatetimeParser) (clock : Clock) (log_entries : list LogEntry)
         (disk : fs),
    (filter is_write (main P clock log_entries disk) <> [] <->
     exists existing r new,
       read_ledger disk = Ok existing /\
       new_entries (failed_logins log_entries) existing = Ok (r :: new)) /\
    (forall existing r new,
        read_ledger disk = Ok existing ->
        new_entries (failed_logins log_entries) existing = Ok (r :: new) ->
        exists alert_writes,
          filter is_write (main P clock log_entries disk) =
          [OpenW LOG_CSV; Store LOG_CSV (Csv (existing ++ r :: new));
           OpenW (report_file clock);
           Store (report_file clock) (ReportText (report_now clock) (r :: new))]
          ++ alert_writes).
Proof.
  intros P clock log_entries disk. unfold main, process. simpl. split.
  - destruct (read_ledger disk) as [existing|e].
    + destruct (new_entries (failed_logins log_entries) existing)
        as [[|r new]|e] eqn:N; simpl.
      * split; [intros H; now elim H|].
        intros [ex [r [new [H1 H2]]]]. injection H1 as <-. congruence.
      * split; [|discriminate]. intros _. now exists existing, r, new.
      * split; [intros H; now elim H|].
        intros [ex [r [new [H1 H2]]]]. injection H1 as <-. congruence.
    + simpl. split; [intros H; now elim H|].
      intros [ex [r [new [H1 H2]]]]. discriminate.
  - intros existing r new -> ->. simpl.
    rewrite !filter_app. simpl. eexists. reflexivity.
Qed.

(** ** Detection *)

Lemma dropna_count (ip : string) (rows : list Row) :
  length (filter (fun c => (c_ip c =? ip)%string) (dropna rows)) <=
  length (filter (fun row => match row_ip row with
                             | Some i => (i =? ip)%string
                             | None => false
                             end) rows).
Proof.
  induction rows as [|row rows IH]; simpl; [lia|].
  unfold complete.
  destruct (time (row_record row)), (message (row_record row)),
    (topics (row_record row)), (row_ip row) as [i|], (row_datetime row);
    simpl; try destruct (i =? ip)%string; simpl; lia.
Qed.

Lemma filter_map_length {A B : Type} (g : A -> B) (p : B -> bool) (l : list A) :
  length (filter p (map g l)) = length (filter (fun x => p (g x)) l).
Proof.
  induction l as [|x l IH]; simpl; [reflexivity|].
  destruct (p (g x)); simpl; now rewrite IH.
Qed.

Lemma rows_naming_ip (P : DatetimeParser) (new : list FailureRecord)
  (ip : string) :
  length (filter (fun row => match row_ip row with
                             | Some i => (i =? ip)%string
                             | None => false
                             end) (with_ip_datetime P new)) =
  length (filter (names_ip ip) new).
Proof.
  rewrite <- (rows_records P new) at 2. rewrite filter_map_length.
  f_equal. apply filter_ext_in. intros row Hin.
  rewrite (row_ip_of_record P new row Hin). unfold names_ip.
  now destruct (message (row_record row)).
Qed.

(** X11: an IP is flagged only if the messages of at least two of this
    run's new records yield it: what the ledger already holds never counts
    towards the threshold, and an IP that no new message names is never
    flagged. *)
Theorem flagged_ip_named_by_two_new_records :
  forall (P : DatetimeParser) (new : list FailureRecord) (ip : string),
    In ip (detect P new) ->
    2 <= length (filter (names_ip ip) new).
Proof.
  intros P new ip H. unfold detect in H.
  set (rows := dropna (with_ip_datetime P new)) in H.
  apply (brute_force_ips_In ip _ (ip_attempts_keys_NoDup rows)) in H.
  destruct H as [times [Hget Hb]].
  apply is_brute_force_iff in Hb. destruct Hb as [Hlen _].
  rewrite ip_attempts_get in Hget.
  assert (E : times = times_of ip rows).
  { destruct (times_of ip rows); [discriminate | now injection Hget]. }
  subst times. unfold times_of in Hlen. rewrite length_map in Hlen.
  rewrite <- rows_naming_ip with (P := P).
  eapply Nat.le_trans; [exact Hlen | apply dropna_count].
Qed.

Lemma flagged_ip_named_by_two_new_records_witness :
  2 <= length (filter (names_ip "10.0.0.2") (failed_logins mixed_batch)).
Proof.
  apply (flagged_ip_named_by_two_new_records Iso.parser
           (failed_logins mixed_batch) "10.0.0.2").
  vm_compute. left. reflexivity.
Defined.

Lemma dict_append_total (k : string) (t : Z) (d : attempts) :
  length (concat (map snd (dict_append k t d))) =
  S (length (concat (map snd d))).
Proof.
  induction d as [|[k' ts] d IH]; simpl; [reflexivity|].
  destruct (k =? k')%string; simpl; rewrite ?length_app; simpl;
    rewrite ?IH; lia.
Qed.

Lemma dict_append_nonempty (k : string) (t : Z) (d : attempts) :
  Forall (fun item => snd item <> []) d ->
  Forall (fun item => snd item <> []) (dict_append k t d).
Proof.
  induction 1 as [|[k' ts] d Hh Hd IH]; simpl.
  - repeat constructor. discriminate.
  - destruct (k =? k')%string; constructor; try assumption.
    simpl. now destruct ts.
Qed.

(** X12: grouping loses and invents no attempt: the lists of the dict
    hold, together, as many timestamps as there are grouped rows, no IP is
    a key twice, and no key has an empty list. *)
Theorem grouping_keeps_every_attempt :
  forall rows : list CompleteRow,
    length (concat (map snd (ip_attempts rows))) = length rows /\
    NoDup (map fst (ip_attempts rows)) /\
    Forall (fun item => snd item <> []) (ip_attempts rows).
Proof.
  intros rows. split; [|split; [apply ip_attempts_keys_NoDup|]].
  - induction rows as [|row rows IH] using rev_ind; [reflexivity|].
    rewrite ip_attempts_snoc, dict_append_total, IH, length_app. simpl. lia.
  - induction rows as [|row rows IH] using rev_ind; [constructor|].
    rewrite ip_attempts_snoc. now apply dict_append_nonempty.
Qed.

Lemma py_max_Permutation (l l' : list Z) :
  Permutation l l' -> py_max l = py_max l'.
Proof.
  intros H. destruct l as [|t ts], l' as [|t' ts'].
  - reflexivity.
  - now apply Permutation_nil in H.
  - apply Permutation_sym in H. now apply Permutation_nil in H.
  - unfold py_max.
    destruct (fold_max_spec ts t) as [U I], (fold_max_spec ts' t') as [U' I'].
    apply (Permutation_in _ H) in I.
    apply (Permutation_in _ (Permutation_sym H)) in I'.
    apply U' in I. apply U in I'. lia.
Qed.

Lemma py_min_Permutation (l l' : list Z) :
  Permutation l l' -> py_min l = py_min l'.
Proof.
  intros H. destruct l as [|t ts], l' as [|t' ts'].
  - reflexivity.
  - now apply Permutation_nil in H.
  - apply Permutation_sym in H. now apply Permutation_nil in H.
  - unfold py_min.
    destruct (fold_min_spec ts t) as [U I], (fold_min_spec ts' t') as [U' I'].
    apply (Permutation_in _ H) in I.
    apply (Permutation_in _ (Permutation_sym H)) in I'.
    apply U' in I. apply U in I'. lia.
Qed.

(** X13: whether a list of attempts is a brute force does not depend on
    the order in which the attempts were logged. *)
Theorem brute_force_order_irrelevant :
  forall times times' : list Z,
    Permutation times times' ->
    is_brute_force times = is_brute_force times'.
Proof.
  intros times times' H. unfold is_brute_force.
  now rewrite (Permutation_length H), (py_max_Permutation _ _ H),
    (py_min_Permutation _ _ H).
Qed.

Lemma brute_force_order_irrelevant_witness :
  is_brute_force [0; 120000000000; 300000000000]%Z =
  is_brute_force [300000000000; 0; 120000000000]%Z.
Proof.
  apply brute_force_order_irrelevant.
  apply Permutation_sym. apply (Permutation_cons_app [_; _] []).
  apply Permutation_refl.
Defined.

Lemma fold_max_shift (c : Z) (ts : list Z) :
  forall t : Z,
    (fold_left Z.max (map (fun x => x + c) ts) (t + c) =
     fold_left Z.max ts t + c)%Z.
Proof.
  induction ts as [|u ts IH]; intros t; simpl; [reflexivity|].
  now rewrite Z.add_max_distr_r, IH.
Qed.

Lemma fold_min_shift (c : Z) (ts : list Z) :
  forall t : Z,
    (fold_left Z.min (map (fun x => x + c) ts) (t + c) =
     fold_left Z.min ts t + c)%Z.
Proof.
  induction ts as [|u ts IH]; intros t; simpl; [reflexivity|].
  now rewrite Z.add_min_distr_r, IH.
Qed.

(** X14: the rule looks at differences of timestamps only: moving every
    attempt of a list by the same amount (a clock offset, a time zone)
    does not change whether the list is a brute force. *)
Theorem brute_force_offset_irrelevant :
  forall (offset : Z) (times : list Z),
    is_brute_force (map (fun t => (t + offset)%Z) times) =
    is_brute_force times.
Proof.
  intros offset [|t ts]; [reflexivity|].
  unfold is_brute_force. simpl map. unfold py_max, py_min.
  rewrite fold_max_shift, fold_min_shift. simpl length. rewrite length_map.
  f_equal. f_equal. lia.
Qed.

(** X15: the window is the span of all the grouped attempts of the IP,
    not a sliding window: when an IP is flagged, any two of its grouped
    attempts of this run are at most 5 minutes apart, so a burst followed
    by one late attempt is not flagged. *)
Theorem flagged_attempts_all_within_window :
  forall (P : DatetimeParser) (new : list FailureRecord) (ip : string)
         (t1 t2 : Z),
    In ip (detect P new) ->
    In t1 (times_of ip (dropna (with_ip_datetime P new))) ->
    In t2 (times_of ip (dropna (with_ip_datetime P new))) ->
    (t1 - t2 <= 5 * 60 * 1000000000)%Z.
Proof.
  intros P new ip t1 t2 H H1 H2. unfold detect in H.
  set (rows := dropna (with_ip_datetime P new)) in *.
  apply (brute_force_ips_In ip _ (ip_attempts_keys_NoDup rows)) in H.
  destruct H as [times [Hget Hb]].
  rewrite ip_attempts_get in Hget.
  assert (E : times = times_of ip rows).
  { destruct (times_of ip rows); [discriminate | now injection Hget]. }
  subst times. apply is_brute_force_iff in Hb.
  destruct Hb as [_ [lo [hi [_ [_ [Hall Hspan]]]]]].
  pose proof (Hall _ H1). pose proof (Hall _ H2). lia.
Qed.

Lemma flagged_attempts_all_within_window_witness :
  (1704103240000000000 - 1704103210000000000 <= 5 * 60 * 1000000000)%Z.
Proof.
  apply (flagged_attempts_all_within_window Iso.parser
           (failed_logins mixed_batch) "10.0.0.2").
  - vm_compute. left. reflexivity.
  - vm_compute. right. left. reflexivity.
  - vm_compute. left. reflexivity.
Defined.

(** ** Identities *)

Lemma no_bar_cons (c : ascii) (s : string) :
  PyStr.contains "|" (String c s) = false ->
  c <> "|"%char /\ PyStr.contains "|" s = false.
Proof.
  simpl. intros H. apply orb_false_iff in H. destruct H as [H1 H2].
  rewrite andb_true_r in H1. split.
  - intros ->. discriminate.
  - destruct s; exact H2.
Qed.

Lemma bar_split_unique (t1 : string) :
  forall t2 m1 m2,
    PyStr.contains "|" t1 = false -> PyStr.contains "|" t2 = false ->
    (t1 ++ "|" ++ m1)%string = (t2 ++ "|" ++ m2)%string ->
    t1 = t2 /\ m1 = m2.
Proof.
  induction t1 as [|c t1 IH]; intros [|c' t2] m1 m2 H1 H2 E; simpl in E.
  - injection E as ->. auto.
  - injection E as <- _. apply no_bar_cons in H2. now elim (proj1 H2).
  - injection E as -> _. apply no_bar_cons in H1. now elim (proj1 H1).
  - injection E as <- E. apply no_bar_cons in H1, H2.
    destruct (IH t2 m1 m2 (proj2 H1) (proj2 H2) E) as [-> ->]. auto.
Qed.

(** X16: the identity of a record is its time and its message joined by
    a bar; when the times hold no bar, two entries with the same identity
    have the same time and the same message (as formatted: a missing key
    reads [None]). *)
Theorem identity_determines_time_and_message :
  forall e1 e2 : LogEntry,
    PyStr.contains "|" (PyStr.format (entry_time e1)) = false ->
    PyStr.contains "|" (PyStr.format (entry_time e2)) = false ->
    id (record_of e1) = id (record_of e2) ->
    PyStr.format (entry_time e1) = PyStr.format (entry_time e2) /\
    PyStr.format (entry_message e1) = PyStr.format (entry_message e2).
Proof.
  intros e1 e2 H1 H2 E. unfold record_of in E. simpl in E.
  now apply bar_split_unique.
Qed.

Lemma identity_determines_time_and_message_witness :
  let again :=
    mkLogEntry (Some "2024-01-01 10:00:00")
               (Some "login failure for user admin from 10.0.0.5 via ssh")
               None in
  PyStr.format (entry_time repeated_failure) =
  PyStr.format (entry_time again) /\
  PyStr.format (entry_message repeated_failure) =
  PyStr.format (entry_message again).
Proof.
  intros again.
  apply (identity_determines_time_and_message repeated_failure again);
    reflexivity.
Defined.

(** ** Classification *)

Lemma lower_app (a b : string) :
  PyStr.lower (a ++ b) = (PyStr.lower a ++ PyStr.lower b)%string.
Proof. induction a as [|c a IH]; simpl; [reflexivity | now rewrite IH]. Qed.

Lemma lower_char_idem (c : ascii) :
  PyStr.lower_char (PyStr.lower_char c) = PyStr.lower_char c.
Proof. destruct c as [[] [] [] [] [] [] [] []]; reflexivity. Qed.

Lemma lower_idem (s : string) : PyStr.lower (PyStr.lower s) = PyStr.lower s.
Proof.
  induction s as [|c s IH]; simpl; [reflexivity|].
  now rewrite lower_char_idem, IH.
Qed.

(** X17: classification reads the message only, without regard to case:
    an entry is a failure exactly when the entry with the lower-cased
    message and any other time and topics is; and a message that holds the
    message of a failure, with any text before and after, is a failure. *)
Theorem classification_case_and_context :
  forall (t t' tp tp' : option string) (m : string),
    is_failure (mkLogEntry t (Some m) tp) =
    is_failure (mkLogEntry t' (Some (PyStr.lower m)) tp') /\
    (forall pre post : string,
        is_failure (mkLogEntry t (Some m) tp) = true ->
        is_failure (mkLogEntry t' (Some (pre ++ m ++ post)%string) tp')
        = true).
Proof.
  intros t t' tp tp' m. split.
  - unfold is_failure, lowered_message. simpl. now rewrite lower_idem.
  - intros pre post H. apply is_failure_iff in H. apply is_failure_iff.
    destruct H as [keyword [a [b [Hin H]]]]. unfold lowered_message in *.
    simpl in *. exists keyword, (PyStr.lower pre ++ a)%string,
      (b ++ PyStr.lower post)%string.
    split; [exact Hin|].
    rewrite !lower_app, H, !PyStrFacts.append_assoc. reflexivity.
Qed.

(** X18: an entry without a message is never a failure, so every record
    of [failed_logins] has a message ([extract_ip] is never handed [None])
    and an identity made of its own time and message. *)
Theorem records_have_a_message :
  (forall entry, entry_message entry = None -> is_failure entry = false) /\
  (forall log_entries r,
      In r (failed_logins log_entries) ->
      exists m,
        message r = Some m /\
        id r = (PyStr.format (time r) ++ "|" ++ m)%string).
Proof.
  split.
  - intros [t [m|] tp]; simpl; [discriminate | reflexivity].
  - intros log_entries r. rewrite failed_logins_filter, in_map_iff.
    intros [entry [<- Hin]]. apply filter_In in Hin. destruct Hin as [_ H].
    destruct entry as [t [m|] tp]; [|discriminate H].
    exists m. split; reflexivity.
Qed.

(** ** The extracted address *)

Lemma digits_and_dots_app (a b : string) :
  digits_and_dots (a ++ b) = digits_and_dots a && digits_and_dots b.
Proof.
  induction a as [|c a IH]; simpl; [reflexivity|].
  now rewrite IH, andb_assoc.
Qed.

Lemma all_digits_dots (g : string) :
  all_digits g = true -> digits_and_dots g = true.
Proof.
  induction g as [|c g IH]; simpl; [reflexivity|].
  intros H. apply andb_true_iff in H. destruct H as [-> H]. now rewrite IH.
Qed.

Lemma dotted_quad_shape (ip : string) :
  dotted_quad ip ->
  7 <= String.length ip <= 15 /\ digits_and_dots ip = true.
Proof.
  intros [a [b [c [d [-> [[Ha La] [[Hb Lb] [[Hc Lc] [Hd Ld]]]]]]]]].
  split.
  - rewrite !PyStrFacts.length_append. simpl. lia.
  - rewrite !digits_and_dots_app. simpl.
    now rewrite !all_digits_dots.
Qed.

(** A dotted quad on its own is extracted whole. *)
Lemma extract_ip_of_quad (ip : string) :
  dotted_quad ip -> extract_ip ip = Some ip.
Proof.
  intros Q.
  assert (B : word_bounded "" "") by (split; reflexivity).
  assert (E : ip = ("" ++ ip ++ "")%string)
    by (simpl; now rewrite PyStrFacts.append_nil_r).
  destruct (extract_ip ip) as [ip0|] eqn:X.
  - destruct (extract_ip_Some_bounded ip ip0 X)
      as [pre [post [Hs [Q0 [B0 Hmin]]]]].
    assert (L : String.length pre <= 0) by (apply (Hmin "" ip "" E Q B)).
    destruct pre as [|c pre]; [|simpl in L; lia]. simpl in Hs.
    f_equal. apply (ReFacts.dotted_quad_unique ip0 ip post "" Q0 Q);
      [now rewrite PyStrFacts.append_nil_r | apply B0 | reflexivity].
  - elim (extract_ip_None_bounded ip X "" ip "" E Q B).
Qed.

(** X19: what [extract_ip] returns is a piece of the message, 7 to 15
    characters long, made of digits and periods only, and extracting from
    it returns it again. *)
Theorem extracted_ip_shape :
  forall msg ip : string,
    extract_ip msg = Some ip ->
    PyStr.contains ip msg = true /\
    7 <= String.length ip <= 15 /\
    digits_and_dots ip = true /\
    extract_ip ip = Some ip.
Proof.
  intros msg ip H.
  destruct (extract_ip_Some_bounded msg ip H) as [pre [post [Hs [Q _]]]].
  split; [apply PyStrFacts.contains_iff; now exists pre, post|].
  destruct (dotted_quad_shape ip Q) as [L D].
  repeat split; try apply L; [exact D | now apply extract_ip_of_quad].
Qed.

Lemma extracted_ip_shape_witness :
  PyStr.contains "192.168.1.50" "login failure from 192.168.1.50 port 22"
  = true /\
  7 <= String.length "192.168.1.50" <= 15 /\
  digits_and_dots "192.168.1.50" = true /\
  extract_ip "192.168.1.50" = Some "192.168.1.50".
Proof.
  apply (extracted_ip_shape "login failure from 192.168.1.50 port 22").
  reflexivity.
Defined.

(** ** File names *)

Lemma append_inj_r (s a : string) :
  forall b, (a ++ s)%string = (b ++ s)%string -> a = b.
Proof.
  induction a as [|c a IH]; intros [|c' b] E; simpl in E.
  - reflexivity.
  - apply (f_equal String.length) in E. simpl in E.
    rewrite PyStrFacts.length_append in E. lia.
  - apply (f_equal String.length) in E. simpl in E.
    rewrite PyStrFacts.length_append in E. lia.
  - injection E as <- E. now rewrite (IH b E).
Qed.

(** X20: the report and the alert of a run are named after its timestamp
    alone: two runs share a report name, or an alert name, exactly when
    their timestamps are equal, and no report name is an alert name or the
    name of the ledger, whatever the timestamps. *)
Theorem artifact_names :
  forall c1 c2 : Clock,
    (report_file c1 = report_file c2 <-> timestamp c1 = timestamp c2) /\
    (alert_file c1 = alert_file c2 <-> timestamp c1 = timestamp c2) /\
    report_file c1 <> alert_file c2 /\
    report_file c1 <> LOG_CSV /\
    alert_file c1 <> LOG_CSV.
Proof.
  intros c1 c2. unfold report_file, alert_file.
  split; [|split; [|split; [|split]]].
  - split; [|now intros ->]. simpl. intros E.
    repeat (injection E as E). now apply (append_inj_r ".txt").
  - split; [|now intros ->]. simpl. intros E.
    repeat (injection E as E). now apply (append_inj_r ".txt").
  - simpl. discriminate.
  - apply report_file_not_ledger.
  - apply alert_file_not_ledger.
Qed.

(** ** Report and ledger *)

(** X21: the report of a run lists the records the run appended to the
    ledger, all of them, in the order of the ledger, and nothing else. *)
Theorem report_lists_what_was_appended :
  forall (P : DatetimeParser) (clock : Clock) (log_entries : list LogEntry)
         (disk : fs) (existing new : list FailureRecord),
    read_ledger disk = Ok existing ->
    new_entries (failed_logins log_entries) existing = Ok new ->
    new <> [] ->
    exists table,
      exec_all (main P clock log_entries disk) disk (report_file clock) =
      Some (ReportText (report_now clock) table) /\
      read_ledger (exec_all (main P clock log_entries disk) disk) =
      Ok (existing ++ table).
Proof.
  intros P clock log_entries disk existing new R N Hne.
  exists new. split.
  - now apply (main_report P clock log_entries disk existing new).
  - unfold read_ledger. rewrite main_ledger, R, N.
    destruct new; [now elim Hne | reflexivity].
Qed.

Lemma report_lists_what_was_appended_witness :
  exists table,
    exec_all (main Iso.parser clock0 mixed_batch one_record_disk)
             one_record_disk (report_file clock0) =
    Some (ReportText (report_now clock0) table) /\
    read_ledger (exec_all (main Iso.parser clock0 mixed_batch one_record_disk)
                          one_record_disk) =
    Ok ([known_record] ++ table).
Proof.
  apply (report_lists_what_was_appended Iso.parser clock0 mixed_batch
           one_record_disk [known_record] (failed_logins mixed_batch)).
  - reflexivity.
  - reflexivity.
  - vm_compute. discriminate.
Defined.
